(** * The interview simulator: plan/session store, session merge, HTTP boundary

    A shallow embedding of the deterministic code of the repository:

    - [main_interviewer_agent/agent.py]: [load_json_file], [save_json_file],
      [update_session_append_answer];
    - [interview_planner_agent/agent.py]: [save_questions_to_file];
    - [server.py]: the handlers [run] and [run_sse].

    Python values are embedded as follows.  A [str] is the list of its code
    points.  A JSON-shaped object is a [json] tree whose dictionaries keep
    their insertion order.  The file system is a finite map from paths to
    contents; every path can be opened for writing, and a write that is
    interrupted by an exception leaves a torn file.  The functions of the
    [json] module are embedded from CPython's
    [json/decoder.py], [json/scanner.py] and [json/encoder.py].

    The embedding has no limits of the interpreter or of the operating
    system: [json_loads] gives the document a text denotes, however deeply it
    is nested and however long its integers are, where [json.loads] raises
    past the recursion limit or the limit on the digits of an integer; a
    float is kept as the literal it was read from; and a path can always be
    opened.  The code returns an error result in those cases, so what is
    proved of the results that are a success holds of the code, and a
    statement that some call succeeds is a statement within these limits. *)

From Stdlib Require Import NArith ZArith List Lia Bool String Ascii.
From Stdlib Require Import DecimalN DecimalPos DecimalFacts.
From stdpp Require Import base gmap.

Import ListNotations.
Local Open Scope N_scope.
Local Open Scope list_scope.

(** ** Python strings *)

Module PyStr.

(** A code point; a [str] is a sequence of them. *)
Definition char := N.
Definition str := list N.

(** The [str] of an ASCII literal of the source; [py "..."] stands for the
    list of its code points. *)
Definition of_literal (s : string) : str :=
  List.map N_of_ascii (list_ascii_of_string s).

Notation "'py' s" :=
  (ltac:(let v := eval vm_compute in (of_literal s%string) in exact v))
  (at level 10, s at level 9, only parsing).

Definition str_eqb (a b : str) : bool := bool_decide (a = b).

(** [str.isspace] on one code point (CPython's [_PyUnicode_IsWhitespace]). *)
Definition is_space (c : char) : bool :=
  ((9 <=? c) && (c <=? 13)) || ((28 <=? c) && (c <=? 32))
  || (c =? 133) || (c =? 160) || (c =? 5760)
  || ((8192 <=? c) && (c <=? 8202))
  || (c =? 8232) || (c =? 8233) || (c =? 8239) || (c =? 8287) || (c =? 12288).

Fixpoint lstrip (s : str) : str :=
  match s with
  | c :: t => if is_space c then lstrip t else s
  | [] => []
  end.

Definition rstrip (s : str) : str := rev (lstrip (rev s)).

(** [s.strip()] *)
Definition strip (s : str) : str := rstrip (lstrip s).

(** A code point of the surrogate range cannot be encoded as UTF-8. *)
Definition is_surrogate (c : char) : bool := (55296 <=? c) && (c <=? 57343).
Definition is_high_surrogate (c : char) : bool := (55296 <=? c) && (c <=? 56319).
Definition is_low_surrogate (c : char) : bool := (56320 <=? c) && (c <=? 57343).

(** [s.encode("utf-8")] succeeds. *)
Definition encodable (s : str) : bool := forallb (fun c => negb (is_surrogate c)) s.

End PyStr.
Export PyStr.

(** ** JSON-shaped Python objects *)

(** [JFloat] carries the literal of a float ([float.__repr__] and the rounding
    of [float(...)] to binary64 are outside the embedding): the literal a
    float was read from is the literal it is written as. *)
#[warnings="-register-all"]
Inductive json : Type :=
  | JNull
  | JBool (b : bool)
  | JInt (z : Z)
  | JFloat (lit : str)
  | JStr (s : str)
  | JArr (items : list json)
  | JObj (pairs : list (str * json)).

(** *** Dictionaries: insertion-ordered, one entry per key *)

Fixpoint dict_get (k : str) (d : list (str * json)) : option json :=
  match d with
  | [] => None
  | (k', v) :: d' => if str_eqb k' k then Some v else dict_get k d'
  end.

(** [d[k] = v]: an existing key keeps its position, a new key goes last. *)
Fixpoint dict_set (k : str) (v : json) (d : list (str * json)) : list (str * json) :=
  match d with
  | [] => [(k, v)]
  | (k', v') :: d' =>
      if str_eqb k' k then (k, v) :: d' else (k', v') :: dict_set k v d'
  end.

(** [dict(pairs)] *)
Definition dict_of_pairs (pairs : list (str * json)) : list (str * json) :=
  fold_left (fun d kv => dict_set (fst kv) (snd kv) d) pairs [].

Definition keys (d : list (str * json)) : list str := List.map fst d.

(** ** [json.dump(obj, f, ensure_ascii=False, indent=2)] *)

Module Encoder.

Definition hex_digit (n : N) : char := if n <? 10 then 48 + n else 87 + n.

(** One character of [encode_basestring]: the replacement from [ESCAPE_DCT]
    for a quote, a backslash or a control character, the character itself
    otherwise. *)
Definition escape_char (c : char) : str :=
  if c =? 34 then [92; 34]
  else if c =? 92 then [92; 92]
  else if c =? 8 then [92; 98]
  else if c =? 12 then [92; 102]
  else if c =? 10 then [92; 110]
  else if c =? 13 then [92; 114]
  else if c =? 9 then [92; 116]
  else if c <? 32 then [92; 117; 48; 48; hex_digit (c / 16); hex_digit (c mod 16)]
  else [c].

Definition encode_basestring (s : str) : str :=
  34 :: flat_map escape_char s ++ [34].

Fixpoint digits_of_uint (d : Decimal.uint) : str :=
  match d with
  | Decimal.Nil => []
  | Decimal.D0 d => 48 :: digits_of_uint d
  | Decimal.D1 d => 49 :: digits_of_uint d
  | Decimal.D2 d => 50 :: digits_of_uint d
  | Decimal.D3 d => 51 :: digits_of_uint d
  | Decimal.D4 d => 52 :: digits_of_uint d
  | Decimal.D5 d => 53 :: digits_of_uint d
  | Decimal.D6 d => 54 :: digits_of_uint d
  | Decimal.D7 d => 55 :: digits_of_uint d
  | Decimal.D8 d => 56 :: digits_of_uint d
  | Decimal.D9 d => 57 :: digits_of_uint d
  end.

(** [int.__repr__] *)
Definition int_repr (z : Z) : str :=
  match z with
  | Z0 => [48]
  | Zpos p => digits_of_uint (Pos.to_uint p)
  | Zneg p => 45 :: digits_of_uint (Pos.to_uint p)
  end.

(** [newline_indent] at a nesting level, for [indent=2]. *)
Definition newline_indent (level : nat) : str := 10 :: repeat 32 (2 * level)%nat.

(** The text [_iterencode] yields for an object at a nesting level: the items
    of a list and of a dictionary on lines of their own, indented by two
    spaces a level, the items after the first behind a comma. *)
Fixpoint iterencode (level : nat) (o : json) : str :=
  match o with
  | JNull => py "null"
  | JBool true => py "true"
  | JBool false => py "false"
  | JInt z => int_repr z
  | JFloat lit => lit
  | JStr s => encode_basestring s
  | JArr [] => py "[]"
  | JArr (x :: xs) =>
      [91] ++ newline_indent (S level) ++ iterencode (S level) x
      ++ flat_map (fun y => [44] ++ newline_indent (S level) ++ iterencode (S level) y) xs
      ++ newline_indent level ++ [93]
  | JObj [] => py "{}"
  | JObj (kv :: ps) =>
      [123] ++ newline_indent (S level)
      ++ encode_basestring (fst kv) ++ [58; 32] ++ iterencode (S level) (snd kv)
      ++ flat_map (fun kv' => [44] ++ newline_indent (S level)
                              ++ encode_basestring (fst kv') ++ [58; 32]
                              ++ iterencode (S level) (snd kv')) ps
      ++ newline_indent level ++ [125]
  end.

Definition json_dumps (o : json) : str := iterencode 0 o.

End Encoder.
Export Encoder.

(** ** [json.loads(s)] and [json.load(f)]

    The scanner of CPython ([scan_once], [scanstring], [_match_number],
    [_parse_object], [_parse_array]), on the text that is left to read instead
    of an index into it.  [None] stands for a raised [JSONDecodeError].  The
    interpreter's recursion limit and its limit on the digits of an [int]
    literal are not part of the embedding. *)

Module Decoder.

(** [WHITESPACE] *)
Definition is_ws (c : char) : bool := (c =? 32) || (c =? 9) || (c =? 10) || (c =? 13).

Fixpoint skip_ws (s : str) : str :=
  match s with
  | c :: t => if is_ws c then skip_ws t else s
  | [] => []
  end.

Definition is_digit (c : char) : bool := (48 <=? c) && (c <=? 57).

(** The longest prefix of digits, and what follows it. *)
Fixpoint span_digits (s : str) : str * str :=
  match s with
  | c :: t =>
      if is_digit c then let '(ds, r) := span_digits t in (c :: ds, r) else ([], s)
  | [] => ([], [])
  end.

Definition hex_value (c : char) : option N :=
  if is_digit c then Some (c - 48)
  else if (97 <=? c) && (c <=? 102) then Some (c - 87)
  else if (65 <=? c) && (c <=? 70) then Some (c - 55)
  else None.

Definition hex4 (a b c d : char) : option N :=
  match hex_value a, hex_value b, hex_value c, hex_value d with
  | Some x, Some y, Some z, Some w => Some (((x * 16 + y) * 16 + z) * 16 + w)
  | _, _, _, _ => None
  end.

(** [Py_UNICODE_JOIN_SURROGATES] *)
Definition join_surrogates (hi lo : N) : N :=
  65536 + N.lor (N.shiftl (N.land hi 1023) 10) (N.land lo 1023).

(** The character a backslash escape other than [\u] stands for. *)
Definition backslash_char (c : char) : option char :=
  if c =? 34 then Some 34
  else if c =? 92 then Some 92
  else if c =? 47 then Some 47
  else if c =? 98 then Some 8
  else if c =? 102 then Some 12
  else if c =? 110 then Some 10
  else if c =? 114 then Some 13
  else if c =? 116 then Some 9
  else None.

Definition cons_char (c : char) (r : option (str * str)) : option (str * str) :=
  match r with
  | Some (x, rest) => Some (c :: x, rest)
  | None => None
  end.

(** [scanstring] in strict mode, from the character after the opening quote:
    the string read, and the text after its closing quote. *)
Fixpoint scanstring (s : str) : option (str * str) :=
  match s with
  | [] => None
  | c :: t =>
      if c =? 34 then Some ([], t)
      else if c =? 92 then
        match t with
        | [] => None
        | e :: t1 =>
            if e =? 117 then
              match t1 with
              | h1 :: h2 :: h3 :: h4 :: t5 =>
                  match hex4 h1 h2 h3 h4 with
                  | None => None
                  | Some u =>
                      match t5 with
                      | b :: e' :: g1 :: g2 :: g3 :: g4 :: t11 =>
                          if is_high_surrogate u && (b =? 92) && (e' =? 117) then
                            match hex4 g1 g2 g3 g4 with
                            | None => None
                            | Some u2 =>
                                if is_low_surrogate u2
                                then cons_char (join_surrogates u u2) (scanstring t11)
                                else cons_char u (scanstring t5)
                            end
                          else cons_char u (scanstring t5)
                      | _ => cons_char u (scanstring t5)
                      end
                  end
              | _ => None
              end
            else
              match backslash_char e with
              | None => None
              | Some x => cons_char x (scanstring t1)
              end
        end
      else if c <? 32 then None
      else cons_char c (scanstring t)
  end.

(** The three groups of [NUMBER_RE]: an optional minus sign and either a zero
    or a non-zero digit and digits; a dot and one digit or more; an [e] or
    [E], an optional sign and one digit or more. *)
Definition match_integer (s : str) : option (str * str) :=
  let '(sign, s1) :=
    match s with
    | c :: t => if c =? 45 then ([45], t) else ([], s)
    | [] => ([], s)
    end in
  match s1 with
  | c :: t =>
      if c =? 48 then Some (sign ++ [48], t)
      else if is_digit c then let '(ds, r) := span_digits t in Some (sign ++ c :: ds, r)
      else None
  | [] => None
  end.

Definition match_frac (s : str) : str * str :=
  match s with
  | c :: t =>
      if c =? 46 then
        match span_digits t with
        | ([], _) => ([], s)
        | (ds, r) => (46 :: ds, r)
        end
      else ([], s)
  | [] => ([], s)
  end.

Definition match_exp (s : str) : str * str :=
  match s with
  | c :: t =>
      if (c =? 101) || (c =? 69) then
        let '(sg, t') :=
          match t with
          | d :: t2 => if (d =? 43) || (d =? 45) then ([d], t2) else ([], t)
          | [] => ([], t)
          end in
        match span_digits t' with
        | ([], _) => ([], s)
        | (ds, r) => (c :: sg ++ ds, r)
        end
      else ([], s)
  | [] => ([], s)
  end.

Definition match_number (s : str) : option (str * str * str * str) :=
  match match_integer s with
  | None => None
  | Some (integer, r) =>
      let '(frac, r1) := match_frac r in
      let '(exp, r2) := match_exp r1 in
      Some (integer, frac, exp, r2)
  end.

Fixpoint uint_of_digits (s : str) : Decimal.uint :=
  match s with
  | [] => Decimal.Nil
  | c :: t =>
      let d := uint_of_digits t in
      match N.to_nat (c - 48) with
      | 0%nat => Decimal.D0 d
      | 1%nat => Decimal.D1 d
      | 2%nat => Decimal.D2 d
      | 3%nat => Decimal.D3 d
      | 4%nat => Decimal.D4 d
      | 5%nat => Decimal.D5 d
      | 6%nat => Decimal.D6 d
      | 7%nat => Decimal.D7 d
      | 8%nat => Decimal.D8 d
      | _ => Decimal.D9 d
      end
  end.

(** [int(integer)] on the first group of [NUMBER_RE]. *)
Definition int_of_literal (s : str) : Z :=
  match s with
  | c :: t =>
      if c =? 45 then Z.opp (Z.of_N (N.of_uint (uint_of_digits t)))
      else Z.of_N (N.of_uint (uint_of_digits s))
  | [] => 0%Z
  end.

(** [s] starts with the literal [lit]: what follows it. *)
Fixpoint strip_prefix (lit s : str) : option str :=
  match lit, s with
  | [], _ => Some s
  | a :: lit', b :: s' => if b =? a then strip_prefix lit' s' else None
  | _ :: _, [] => None
  end.

Definition scan_number (s : str) : option (json * str) :=
  match match_number s with
  | None => None
  | Some (integer, frac, exp, r) =>
      match frac, exp with
      | [], [] => Some (JInt (int_of_literal integer), r)
      | _, _ => Some (JFloat (integer ++ frac ++ exp), r)
      end
  end.

Definition scan_constant (lit : str) (v : json) (s : str) : option (json * str) :=
  match strip_prefix lit s with
  | Some r => Some (v, r)
  | None => None
  end.

(** [scan_once] with its two loops, [_parse_array] after the opening bracket
    and [_parse_object] after the opening brace.  The first argument bounds
    the depth of the calls; [json_loads] gives enough for the whole text. *)
Fixpoint scan_once (fuel : nat) (s : str) {struct fuel} : option (json * str) :=
  match fuel with
  | O => None
  | S fuel' =>
      match s with
      | [] => None
      | c :: t =>
          if c =? 34 then
            match scanstring t with
            | Some (x, r) => Some (JStr x, r)
            | None => None
            end
          else if c =? 123 then
            match skip_ws t with
            | c' :: t' =>
                if c' =? 125 then Some (JObj [], t')
                else
                  match parse_object fuel' (c' :: t') with
                  | Some (pairs, r) => Some (JObj (dict_of_pairs pairs), r)
                  | None => None
                  end
            | [] => None
            end
          else if c =? 91 then
            match skip_ws t with
            | c' :: t' =>
                if c' =? 93 then Some (JArr [], t')
                else
                  match parse_array fuel' (c' :: t') with
                  | Some (items, r) => Some (JArr items, r)
                  | None => None
                  end
            | [] => None
            end
          else if c =? 110 then scan_constant (py "null") JNull s
          else if c =? 116 then scan_constant (py "true") (JBool true) s
          else if c =? 102 then scan_constant (py "false") (JBool false) s
          else if c =? 78 then scan_constant (py "NaN") (JFloat (py "NaN")) s
          else if c =? 73 then scan_constant (py "Infinity") (JFloat (py "Infinity")) s
          else
            match (if c =? 45 then strip_prefix (py "-Infinity") s else None) with
            | Some r => Some (JFloat (py "-Infinity"), r)
            | None => scan_number s
            end
      end
  end

with parse_array (fuel : nat) (s : str) {struct fuel} : option (list json * str) :=
  match fuel with
  | O => None
  | S fuel' =>
      match scan_once fuel' s with
      | None => None
      | Some (v, r) =>
          match skip_ws r with
          | c :: t =>
              if c =? 93 then Some ([v], t)
              else if c =? 44 then
                match parse_array fuel' (skip_ws t) with
                | Some (vs, r') => Some (v :: vs, r')
                | None => None
                end
              else None
          | [] => None
          end
      end
  end

with parse_object (fuel : nat) (s : str) {struct fuel}
  : option (list (str * json) * str) :=
  match fuel with
  | O => None
  | S fuel' =>
      match s with
      | [] => None
      | q :: t =>
          if q =? 34 then
            match scanstring t with
            | None => None
            | Some (k, r) =>
                match skip_ws r with
                | c :: t1 =>
                    if c =? 58 then
                      match scan_once fuel' (skip_ws t1) with
                      | None => None
                      | Some (v, r1) =>
                          match skip_ws r1 with
                          | c' :: t2 =>
                              if c' =? 125 then Some ([(k, v)], t2)
                              else if c' =? 44 then
                                match parse_object fuel' (skip_ws t2) with
                                | Some (ps, r') => Some ((k, v) :: ps, r')
                                | None => None
                                end
                              else None
                          | [] => None
                          end
                      end
                    else None
                | [] => None
                end
            end
          else None
      end
  end.

(** [JSONDecoder.decode]: one value between optional whitespace, and nothing
    else. *)
Definition json_loads (s : str) : option json :=
  match scan_once (2 * length s + 2) (skip_ws s) with
  | Some (v, r) =>
      match skip_ws r with
      | [] => Some v
      | _ :: _ => None
      end
  | None => None
  end.

End Decoder.
Export Decoder.

(** ** The file system *)

(** What a path holds: the text of a regular file, or what an interrupted
    [json.dump] left behind.  [json.dump] writes the rendered text chunk by
    chunk; the chunk that cannot be encoded raises, and the file keeps the
    chunks before it: a proper prefix of a rendered document, which lacks its
    end and is not a JSON text. *)
Inductive content : Type :=
  | Text (t : str)
  | Torn.

(** Regular files by path.  Every path can be opened for writing and every
    file can be read: directories and permissions are not part of the
    embedding. *)
Abbreviation filesystem := (gmap str content).

(** [os.path.exists(path)] *)
Definition path_exists (fs : filesystem) (path : str) : bool :=
  bool_decide (is_Some (fs !! path)).

(** The exceptions the code can meet. *)
Inductive exn : Type :=
  | JSONDecodeError
  | UnicodeEncodeError
  | KeyError (k : str)
  | TypeError
  | AttributeError.

(** The text of an [error_message]: a literal of the source, or [str(e)] of a
    caught exception. *)
Inductive message : Type :=
  | Literal (s : str)
  | StrOf (e : exn).

(** The dictionaries the tools return; [None] is a key that is absent. *)
Record result : Type := mkResult {
  status : str;
  data : option json;
  saved : option str;             (* the key "message" *)
  error_message : option message
}.

(** [json.load(f)] on an open file. *)
Definition json_load (c : content) : exn + json :=
  match c with
  | Text t =>
      match json_loads t with
      | Some v => inr v
      | None => inl JSONDecodeError
      end
  | Torn => inl JSONDecodeError
  end.

(** [with open(path, "w", encoding="utf-8") as f:
       json.dump(obj, f, ensure_ascii=False, indent=2)] *)
Definition json_dump_to (path : str) (obj : json) (fs : filesystem)
  : filesystem * option exn :=
  let text := json_dumps obj in
  if encodable text then (<[path := Text text]> fs, None)
  else (<[path := Torn]> fs, Some UnicodeEncodeError).

(** ** [main_interviewer_agent/agent.py] *)

Definition load_json_file (path : str) (fs : filesystem) : filesystem * result :=
  match fs !! path with
  | None =>
      (fs, mkResult (py "error") (Some JNull) None
             (Some (Literal (py "File not found: " ++ path))))
  | Some c =>
      match json_load c with
      | inr v => (fs, mkResult (py "success") (Some v) None (Some (Literal [])))
      | inl e => (fs, mkResult (py "error") (Some JNull) None (Some (StrOf e)))
      end
  end.

Definition save_json_file (data_json path : str) (fs : filesystem)
  : filesystem * result :=
  match json_loads data_json with
  | None => (fs, mkResult (py "error") None None (Some (StrOf JSONDecodeError)))
  | Some parsed =>
      match json_dump_to path parsed fs with
      | (fs', None) =>
          (fs', mkResult (py "success") None (Some (py "Saved to " ++ path)) None)
      | (fs', Some e) => (fs', mkResult (py "error") None None (Some (StrOf e)))
      end
  end.

(** The session created when there is no session file. *)
Definition new_session : json :=
  JObj [ (py "current_topic_index", JInt 0);
         (py "asked_followup_for_topic", JObj []);
         (py "answers", JArr []) ].

(** [o[k]] for a string [k]. *)
Definition getitem (o : json) (k : str) : exn + json :=
  match o with
  | JObj d =>
      match dict_get k d with
      | Some v => inr v
      | None => inl (KeyError k)
      end
  | _ => inl TypeError
  end.

(** [v == s] for a string [s]. *)
Definition eq_str (v : json) (s : str) : bool :=
  match v with
  | JStr x => str_eqb x s
  | _ => false
  end.

(** [rec.get(k)] *)
Definition dict_get_default (d : list (str * json)) (k : str) : json :=
  match dict_get k d with
  | Some v => v
  | None => JNull
  end.

(** The loop of [_find_idx] over the records from index [i] on. *)
Fixpoint find_from (topic_id question_id : str) (i : nat) (recs : list json)
  : exn + option nat :=
  match recs with
  | [] => inr None
  | JObj d :: recs' =>
      if eq_str (dict_get_default d (py "topic_id")) topic_id
         && eq_str (dict_get_default d (py "question_id")) question_id
      then inr (Some i)
      else find_from topic_id question_id (S i) recs'
  | _ :: _ => inl AttributeError
  end.

(** [_find_idx()] on the value of [session["answers"]]: a dictionary is
    iterated by its keys and a string by its characters, neither of which has
    a [get]; the other values are not iterable. *)
Definition find_idx (topic_id question_id : str) (answers : json) : exn + option nat :=
  match answers with
  | JArr recs => find_from topic_id question_id 0 recs
  | JObj [] | JStr [] => inr None
  | JObj (_ :: _) | JStr (_ :: _) => inl AttributeError
  | _ => inl TypeError
  end.

(** [not followup_answer] *)
Definition falsy (followup_answer : option str) : bool :=
  match followup_answer with
  | None | Some [] => true
  | Some (_ :: _) => false
  end.

(** The separator between an answer and its follow-up: two newlines. *)
Definition separator : str := [10; 10].

Definition final_answer (original_answer : str) (followup_answer : option str) : str :=
  strip (if falsy followup_answer then original_answer
         else original_answer ++ separator ++ default [] followup_answer).

Definition of_optional (o : option str) : json :=
  match o with
  | Some s => JStr s
  | None => JNull
  end.

(** The record of one answer.  [completeness] and [rating] are the objects
    the caller passes, [JNull] for [None]. *)
Definition make_record (topic_id question_id original_answer : str)
    (followup_answer : option str) (completeness rating : json) : json :=
  JObj [ (py "topic_id", JStr topic_id);
         (py "question_id", JStr question_id);
         (py "original_answer", JStr original_answer);
         (py "followup_answer", of_optional followup_answer);
         (py "final_answer", JStr (final_answer original_answer followup_answer));
         (py "completeness", completeness);
         (py "rating", rating) ].

(** [session["answers"].append(record)] and [session["answers"][idx] = record] *)
Definition put_record (idx : option nat) (record answers : json) : exn + json :=
  match answers with
  | JArr recs =>
      match idx with
      | None => inr (JArr (recs ++ [record]))
      | Some i => inr (JArr (<[i := record]> recs))
      end
  | _ => inl AttributeError
  end.

(** The session in memory after the record is put in: the body of the [try]
    between reading the file and writing it. *)
Definition merge_record (session : json) (topic_id question_id : str) (record : json)
  : exn + json :=
  match getitem session (py "answers") with
  | inl e => inl e
  | inr answers =>
      match find_idx topic_id question_id answers with
      | inl e => inl e
      | inr idx =>
          match put_record idx record answers, session with
          | inr answers', JObj d => inr (JObj (dict_set (py "answers") answers' d))
          | inl e, _ => inl e
          | _, _ => inl TypeError
          end
      end
  end.

Definition error_result (e : exn) : result :=
  mkResult (py "error") None None (Some (StrOf e)).

(** The session the merge starts from: the document of the session file, or a
    new session when there is no file. *)
Definition load_session (session_path : str) (fs : filesystem) : exn + json :=
  match fs !! session_path with
  | Some c => json_load c
  | None => inr new_session
  end.

Definition update_session_append_answer (session_path topic_id question_id : str)
    (original_answer : str) (followup_answer : option str)
    (completeness rating : json) (fs : filesystem) : filesystem * result :=
  match load_session session_path fs with
  | inl e => (fs, error_result e)
  | inr session =>
      let record := make_record topic_id question_id original_answer
                      followup_answer completeness rating in
      match merge_record session topic_id question_id record with
      | inl e => (fs, error_result e)
      | inr session' =>
          match json_dump_to session_path session' fs with
          | (fs', None) => (fs', mkResult (py "success") (Some session') None None)
          | (fs', Some e) => (fs', error_result e)
          end
      end
  end.

(** *** Sequences of merges on one session file *)

(** The arguments of one call, the path apart. *)
Record merge_call : Type := mkCall {
  call_topic : str;
  call_question : str;
  call_original : str;
  call_followup : option str;
  call_completeness : json;
  call_rating : json
}.

Definition merge (session_path : str) (c : merge_call) (fs : filesystem)
  : filesystem * result :=
  update_session_append_answer session_path (call_topic c) (call_question c)
    (call_original c) (call_followup c) (call_completeness c) (call_rating c) fs.

Definition record_of (c : merge_call) : json :=
  make_record (call_topic c) (call_question c) (call_original c) (call_followup c)
    (call_completeness c) (call_rating c).

(** The calls one after the other: the file system they leave and their
    results, in order. *)
Fixpoint merges (session_path : str) (calls : list merge_call) (fs : filesystem)
  : filesystem * list result :=
  match calls with
  | [] => (fs, [])
  | c :: calls' =>
      let '(fs1, r) := merge session_path c fs in
      let '(fs2, rs) := merges session_path calls' fs1 in
      (fs2, r :: rs)
  end.

(** The answers list of a session, and the session a file holds. *)
Definition answers_of (session : json) : list json :=
  match getitem session (py "answers") with
  | inr (JArr recs) => recs
  | _ => []
  end.

Definition stored_session (fs : filesystem) (session_path : str) : option json :=
  match fs !! session_path with
  | Some (Text t) => json_loads t
  | _ => None
  end.

(** The (topic id, question id) pair of a record. *)
Definition pair_of (rec : json) : json * json :=
  match rec with
  | JObj d => (dict_get_default d (py "topic_id"), dict_get_default d (py "question_id"))
  | _ => (JNull, JNull)
  end.

(** A record has the given pair. *)
Definition has_pair (topic_id question_id : str) (rec : json) : bool :=
  match pair_of rec with
  | (JStr t, JStr q) => str_eqb t topic_id && str_eqb q question_id
  | _ => false
  end.

(** The position of the first record with the given pair, from the words of
    the specification: locate an existing record by exact (topic id, question
    id) match. *)
Fixpoint first_match (topic_id question_id : str) (recs : list json) : option nat :=
  match recs with
  | [] => None
  | rec :: recs' =>
      if has_pair topic_id question_id rec then Some 0%nat
      else option_map S (first_match topic_id question_id recs')
  end.

(** The answers after a record is put in: in the place of the first record
    with its pair, or last. *)
Definition put (recs : list json) (idx : option nat) (rec : json) : list json :=
  match idx with
  | None => recs ++ [rec]
  | Some i => <[i := rec]> recs
  end.

(** ** [interview_planner_agent/agent.py] *)

Definition save_questions_to_file (questions filename : str) (fs : filesystem)
  : filesystem * result :=
  match json_loads questions with
  | None => (fs, mkResult (py "error") None None (Some (StrOf JSONDecodeError)))
  | Some data =>
      match json_dump_to filename data fs with
      | (fs', None) =>
          (fs', mkResult (py "success") None (Some (py "Saved to " ++ filename)) None)
      | (fs', Some e) => (fs', mkResult (py "error") None None (Some (StrOf e)))
      end
  end.

(** ** [server.py] *)

Module Server.

(** The keys of [agents], which are the keys of [session_services] and of
    [runners]. *)
Definition agents : list str :=
  [ py "resume_evaluator_agent";
    py "main_interviewer_agent";
    py "interview_planner_agent";
    py "answers_completness_evaluator_agent";
    py "answer_rating_evaluator_agent";
    py "candidate_evaluator_agent" ].

Record Part : Type := mkPart { text : str }.

Record NewMessage : Type := mkNewMessage { role : str; parts : list Part }.

Record RunBody : Type := mkRunBody {
  app_name : str;
  userId : str;
  sessionId : str;
  newMessage : NewMessage
}.

(** [types.Content(role=..., parts=[types.Part(text=...), ...])] *)
Record Content : Type := mkContent { content_role : str; content_parts : list str }.

(** What [create_session] does: it returns, or raises an exception [e] for
    which ["exist" in str(e).lower()] has the given value. *)
Inductive created : Type :=
  | Created
  | Raised (mentions_exist : bool).

(** The session services and the runners, which the server only calls: the
    state behind them, the events of a run and whether the run ends in an
    exception. *)
Record backend : Type := mkBackend {
  World : Type;
  Event : Type;
  model_dump : Event -> json;
  model_dump_json : Event -> str;
  create_session : str -> str -> str -> World -> World * created;
  run_async : str -> str -> str -> Content -> World -> World * list Event * bool
}.

(** The calls the server makes to its backend. *)
Inductive call : Type :=
  | CreateSession (app user session : str)
  | RunAsync (app user session : str) (new_message : Content).

Inductive response : Type :=
  | HTTPException (status_code : Z) (detail : str)
  | Unhandled                                   (* an exception leaves the handler *)
  | EventsBody (events : list json)             (* the body with the key "events" *)
  | StreamingResponse (chunks : list str) (complete : bool).

(** [name in runners] *)
Definition registered (name : str) : bool := existsb (str_eqb name) agents.

Section Handlers.

Variable B : backend.

(** [ensure_session]: [true] when it returns, [false] when it raises again. *)
Definition ensure_session (app user session : str) (w : World B) : World B * bool :=
  match create_session B app user session w with
  | (w', Created) => (w', true)
  | (w', Raised mentions_exist) => (w', mentions_exist)
  end.

Definition content_of (m : NewMessage) : Content :=
  mkContent (role m) (List.map text (parts m)).

Definition run (body : RunBody) (w : World B) : World B * list call * response :=
  if negb (registered (app_name body)) then
    (w, [], HTTPException 400 (py "Unknown app_name " ++ app_name body))
  else
    let created := CreateSession (app_name body) (userId body) (sessionId body) in
    match ensure_session (app_name body) (userId body) (sessionId body) w with
    | (w1, false) => (w1, [created], Unhandled)
    | (w1, true) =>
        let content := content_of (newMessage body) in
        let calls :=
          [created; RunAsync (app_name body) (userId body) (sessionId body) content] in
        match run_async B (app_name body) (userId body) (sessionId body) content w1 with
        | (w2, events, false) => (w2, calls, EventsBody (List.map (model_dump B) events))
        | (w2, _, true) => (w2, calls, Unhandled)
        end
    end.

(** One chunk of [event_stream]: the characters of [data: ], the event and two
    newlines. *)
Definition sse_chunk (ev : Event B) : str :=
  py "data: " ++ model_dump_json B ev ++ [10; 10].

Definition run_sse (body : RunBody) (w : World B) : World B * list call * response :=
  if negb (registered (app_name body)) then
    (w, [], HTTPException 400 (py "Unknown app_name " ++ app_name body))
  else
    let created := CreateSession (app_name body) (userId body) (sessionId body) in
    match ensure_session (app_name body) (userId body) (sessionId body) w with
    | (w1, false) => (w1, [created], Unhandled)
    | (w1, true) =>
        let content := content_of (newMessage body) in
        let calls :=
          [created; RunAsync (app_name body) (userId body) (sessionId body) content] in
        match run_async B (app_name body) (userId body) (sessionId body) content w1 with
        | (w2, events, raised) =>
            (w2, calls, StreamingResponse (List.map sse_chunk events) (negb raised))
        end
    end.

End Handlers.

End Server.

(** ** Objects that stand for Python objects *)

Module WellFormed.

(** The literal of a float: a number with a fraction or an exponent, or one of
    the three constants. *)
Definition float_literal (lit : str) : bool :=
  match match_number lit with
  | Some (integer, frac, exp, []) =>
      match frac, exp with
      | [], [] => false
      | _, _ => true
      end
  | _ => false
  end
  || str_eqb lit (py "NaN") || str_eqb lit (py "Infinity")
  || str_eqb lit (py "-Infinity").

(** The keys of every dictionary are distinct and every float has a literal. *)
Fixpoint wf (v : json) : bool :=
  match v with
  | JFloat lit => float_literal lit
  | JArr items => forallb wf items
  | JObj pairs =>
      bool_decide (NoDup (keys pairs)) && forallb (fun kv => wf (snd kv)) pairs
  | _ => true
  end.

End WellFormed.
Export WellFormed.

(** ** Notions of the specification *)

(** The session with one record that a merge makes when there is no file. *)
Definition first_session (rec : json) : json :=
  JObj [ (py "current_topic_index", JInt 0);
         (py "asked_followup_for_topic", JObj []);
         (py "answers", JArr [rec]) ].

(** No two records of a session have one (topic id, question id) pair; the
    session a file holds has none; the objects of a call are well formed. *)
Definition distinct_pairs (session : json) : Prop :=
  NoDup (List.map pair_of (answers_of session)).

Definition file_distinct (fs : filesystem) (path : str) : Prop :=
  forall session, stored_session fs path = Some session -> distinct_pairs session.

Definition wf_call (c : merge_call) : Prop :=
  wf (call_completeness c) = true /\ wf (call_rating c) = true.

(** The session file is absent, or holds a session without answers. *)
Definition starts_empty (fs : filesystem) (path : str) : Prop :=
  fs !! path = None
  \/ exists session, stored_session fs path = Some session /\ answers_of session = [].

(** A response that is a client error. *)
Definition is_client_error (r : Server.response) : Prop :=
  exists status_code detail, r = Server.HTTPException status_code detail.

(** *** Inputs of the examples *)

(** The completeness object of the scenario. *)
Definition complete : json := JObj [(py "completeness", JStr (py "complete"))].

Definition scenario_record (answer : str) : json :=
  make_record (py "T1") (py "Q1") answer None complete JNull.

(** Three merges, two of them for one pair. *)
Definition three_calls : list merge_call :=
  [ mkCall (py "T1") (py "Q1") (py "A") None complete JNull;
    mkCall (py "T1") (py "Q1") (py "B") (Some (py "more")) complete JNull;
    mkCall (py "T2") (py "Q1") (py "C") None complete JNull ].

(** A session file with a key of its own. *)
Definition session0 : json :=
  JObj [ (py "current_topic_index", JInt 2);
         (py "asked_followup_for_topic", JObj [(py "T1", JBool true)]);
         (py "answers", JArr []);
         (py "candidate", JStr (py "Ada")) ].

(** A backend that creates every session and runs without events. *)
Definition quiet : Server.backend :=
  Server.mkBackend unit unit (fun _ => JNull) (fun _ => [])
    (fun _ _ _ w => (w, Server.Created)) (fun _ _ _ _ w => (w, [], false)).

Definition unknown_body : Server.RunBody :=
  Server.mkRunBody (py "rating_agent") (py "u1") (py "s1")
    (Server.mkNewMessage (py "user") [Server.mkPart (py "hello")]).

(** ** Notions of the round trip through the encoder and the decoder *)

Module Reading.

(** What may follow a run of digits so that the run ends there, and what may
    follow a number so that the number ends there. *)
Definition digit_stop (rest : str) : bool :=
  match rest with
  | [] => true
  | c :: _ => negb (is_digit c)
  end.

Definition number_stop (rest : str) : bool :=
  match rest with
  | [] => true
  | c :: _ => (c =? 44) || (c =? 10)
  end.

(** The first character of an exponent, when there is one. *)
Definition exp_head (e : str) : Prop :=
  e = [] \/ exists c t, e = c :: t /\ (c = 101 \/ c = 69).

(** A text that starts with the first character of a rendered object: not
    whitespace and not a closing bracket. *)
Definition value_head (s : str) : Prop :=
  exists c t, s = c :: t /\ is_ws c = false /\ (c =? 93) = false /\ (c =? 125) = false.

(** The items of a rendered list and of a rendered dictionary after the
    first. *)
Definition array_items (level : nat) (xs : list json) : str :=
  flat_map (fun y => [44] ++ newline_indent (S level) ++ iterencode (S level) y) xs.

Definition object_items (level : nat) (ps : list (str * json)) : str :=
  flat_map (fun kv => [44] ++ newline_indent (S level)
                      ++ encode_basestring (fst kv) ++ [58; 32]
                      ++ iterencode (S level) (snd kv)) ps.

(** The decoder reads an object back from its rendered text, whatever
    follows that ends a number, with a bound on the depth as large as the
    text is long. *)
Definition reads_back (v : json) : Prop :=
  forall level rest fuel,
    number_stop rest = true ->
    (length (iterencode level v) <= fuel)%nat ->
    scan_once fuel (iterencode level v ++ rest) = Some (v, rest).

End Reading.
Export Reading.

(** ** Notions of the further properties *)

(** A string of whitespace only: the empty string, or [s.isspace()]. *)
Definition blank (s : str) : bool := forallb is_space s.

(** A dictionary, the one JSON-shaped object with a [get]. *)
Definition is_dict (v : json) : bool :=
  match v with
  | JObj _ => true
  | _ => false
  end.

(** The records [_find_idx] looks at: those before the first record with the
    pair, or all of them when no record has the pair. *)
Definition examined (topic_id question_id : str) (recs : list json) : list json :=
  take (default (length recs) (first_match topic_id question_id recs)) recs.

(** The record of a session for a pair: the first one with the pair. *)
Definition record_for (topic_id question_id : str) (session : json) : option json :=
  match first_match topic_id question_id (answers_of session) with
  | Some i => answers_of session !! i
  | None => None
  end.

(** A call is for the given pair, and the last call of a sequence that is. *)
Definition same_pair (topic_id question_id : str) (c : merge_call) : bool :=
  str_eqb (call_topic c) topic_id && str_eqb (call_question c) question_id.

Definition last_call (topic_id question_id : str) (calls : list merge_call)
  : option merge_call :=
  List.find (same_pair topic_id question_id) (rev calls).

(** A backend whose session service raises an exception that does not mention
    "exist", and a request for a registered agent. *)
Definition refusing : Server.backend :=
  Server.mkBackend unit unit (fun _ => JNull) (fun _ => [])
    (fun _ _ _ w => (w, Server.Raised false)) (fun _ _ _ _ w => (w, [], false)).

Definition known_body : Server.RunBody :=
  Server.mkRunBody (py "main_interviewer_agent") (py "u1") (py "s1")
    (Server.mkNewMessage (py "user") [Server.mkPart (py "hello")]).

(** A session whose second record is not a dictionary. *)
Definition later_malformed : json :=
  JObj [ (py "current_topic_index", JInt 0);
         (py "asked_followup_for_topic", JObj []);
         (py "answers", JArr [scenario_record (py "A"); JInt 5]) ].

(** The number of records of a session with the given pair. *)
Definition count_pair (topic_id question_id : str) (session : json) : nat :=
  length (List.filter (has_pair topic_id question_id) (answers_of session)).

(** * Properties *)

(** ** Induction on JSON-shaped objects *)

Section JsonInduction.

Variable P : json -> Prop.
Hypothesis Hnull : P JNull.
Hypothesis Hbool : forall b, P (JBool b).
Hypothesis Hint : forall z, P (JInt z).
Hypothesis Hfloat : forall lit, P (JFloat lit).
Hypothesis Hstr : forall s, P (JStr s).
Hypothesis Harr : forall items, Forall P items -> P (JArr items).
Hypothesis Hobj : forall pairs, Forall (fun kv => P (snd kv)) pairs -> P (JObj pairs).

Fixpoint json_induction (v : json) : P v :=
  match v with
  | JNull => Hnull
  | JBool b => Hbool b
  | JInt z => Hint z
  | JFloat lit => Hfloat lit
  | JStr s => Hstr s
  | JArr items =>
      Harr items
        ((fix all (l : list json) : Forall P l :=
            match l with
            | [] => @List.Forall_nil _ P
            | x :: l' => @List.Forall_cons _ P x l' (json_induction x) (all l')
            end) items)
  | JObj pairs =>
      Hobj pairs
        ((fix all (l : list (str * json)) : Forall (fun kv => P (snd kv)) l :=
            match l with
            | [] => @List.Forall_nil _ _
            | kv :: l' => @List.Forall_cons _ _ kv l' (json_induction (snd kv)) (all l')
            end) pairs)
  end.

End JsonInduction.

(** ** Characters and digits *)

Lemma str_eqb_eq (a b : str) : str_eqb a b = true <-> a = b.
Proof. unfold str_eqb. apply bool_decide_eq_true. Qed.

Lemma str_eqb_refl (a : str) : str_eqb a a = true.
Proof. apply str_eqb_eq. reflexivity. Qed.

Lemma str_eqb_neq (a b : str) : str_eqb a b = false <-> a <> b.
Proof. unfold str_eqb. apply bool_decide_eq_false. Qed.

Lemma number_stop_cases (rest : str) :
  number_stop rest = true ->
  rest = [] \/ exists c t, rest = c :: t /\ (c = 44 \/ c = 10).
Proof.
  destruct rest as [|c t]; [auto|]. simpl. intros H. right. exists c, t. split; [reflexivity|].
  apply orb_prop in H as [H|H]; apply N.eqb_eq in H; auto.
Qed.

Lemma number_stop_digit_stop (rest : str) :
  number_stop rest = true -> digit_stop rest = true.
Proof.
  intros H. destruct (number_stop_cases rest H) as [->|(c & t & -> & [->| ->])]; reflexivity.
Qed.

Lemma span_digits_app (s rest ds r : str) :
  span_digits s = (ds, r) ->
  digit_stop rest = true ->
  span_digits (s ++ rest) = (ds, r ++ rest).
Proof.
  revert ds r. induction s as [|c s IH]; intros ds r Hs Hstop; simpl in *.
  - inversion Hs; subst. destruct rest as [|c rest]; [reflexivity|].
    simpl in *. apply negb_true_iff in Hstop. rewrite Hstop. reflexivity.
  - destruct (is_digit c).
    + destruct (span_digits s) as [ds' r'] eqn:E. inversion Hs; subst.
      rewrite (IH ds' r eq_refl Hstop). reflexivity.
    + inversion Hs; subst. reflexivity.
Qed.

Lemma span_digits_spec (s ds r : str) :
  span_digits s = (ds, r) ->
  s = ds ++ r /\ forallb is_digit ds = true
  /\ match r with [] => True | c :: _ => is_digit c = false end.
Proof.
  revert ds r. induction s as [|c s IH]; intros ds r Hs; simpl in *.
  - inversion Hs; subst. auto.
  - destruct (is_digit c) eqn:Ec.
    + destruct (span_digits s) as [ds' r'] eqn:E. inversion Hs; subst.
      destruct (IH ds' r eq_refl) as (-> & Hd & Hr). simpl. rewrite Ec. auto.
    + inversion Hs; subst. simpl. auto.
Qed.

Lemma span_digits_all (ds r : str) :
  forallb is_digit ds = true ->
  match r with [] => True | c :: _ => is_digit c = false end ->
  span_digits (ds ++ r) = (ds, r).
Proof.
  intros Hd Hr. induction ds as [|c ds IH]; simpl in *.
  - destruct r as [|c r]; [reflexivity|]. simpl. rewrite Hr. reflexivity.
  - apply andb_prop in Hd as [Hc Hd]. rewrite Hc, (IH Hd). reflexivity.
Qed.

Lemma span_digits_digits (ds : str) :
  forallb is_digit ds = true -> span_digits ds = (ds, []).
Proof.
  intros Hd. pose proof (span_digits_all ds [] Hd I) as H.
  rewrite app_nil_r in H. exact H.
Qed.

Lemma uint_of_digits_of_uint (d : Decimal.uint) :
  uint_of_digits (digits_of_uint d) = d.
Proof. induction d; simpl; rewrite ?IHd; reflexivity. Qed.

Lemma digits_of_uint_digits (d : Decimal.uint) :
  forallb is_digit (digits_of_uint d) = true.
Proof. induction d; simpl; auto. Qed.

Lemma nzhead_not_D0 (d d' : Decimal.uint) : Decimal.nzhead d <> Decimal.D0 d'.
Proof. induction d; simpl; try discriminate. assumption. Qed.

Lemma pos_to_uint_head (p : positive) :
  exists c ds, digits_of_uint (Pos.to_uint p) = c :: ds
               /\ is_digit c = true /\ (c =? 48) = false /\ (c =? 45) = false.
Proof.
  assert (Hn : Decimal.unorm (Pos.to_uint p) = Pos.to_uint p).
  { rewrite <- (DecimalPos.Unsigned.to_of (Pos.to_uint p)).
    rewrite DecimalPos.Unsigned.of_to. reflexivity. }
  pose proof (DecimalPos.Unsigned.to_uint_nonzero p) as Hz.
  pose proof (DecimalPos.Unsigned.to_uint_nonnil p) as Hnil.
  destruct (Pos.to_uint p) as [|d|d|d|d|d|d|d|d|d|d] eqn:E;
    try congruence; simpl; try (eexists _, _; repeat split; reflexivity).
  exfalso. unfold Decimal.unorm in Hn. simpl in Hn.
  destruct (Decimal.nzhead d) eqn:En;
    try (inversion Hn; subst; apply Hz; reflexivity);
    try (eapply nzhead_not_D0; rewrite En; eassumption).
Qed.

(** ** Numbers *)

Lemma match_frac_app (s rest f r : str) :
  match_frac s = (f, r) ->
  number_stop rest = true ->
  match_frac (s ++ rest) = (f, r ++ rest).
Proof.
  intros Hs Hstop. destruct s as [|c t]; simpl in *.
  - inversion Hs; subst. simpl.
    destruct (number_stop_cases rest Hstop) as [->|(c & t & -> & [->| ->])]; reflexivity.
  - destruct (c =? 46); [|inversion Hs; subst; reflexivity].
    destruct (span_digits t) as [ds r'] eqn:E.
    rewrite (span_digits_app t rest ds r' E (number_stop_digit_stop _ Hstop)).
    destruct ds; inversion Hs; subst; reflexivity.
Qed.

Lemma match_exp_app (s rest e r : str) :
  match_exp s = (e, r) ->
  number_stop rest = true ->
  match_exp (s ++ rest) = (e, r ++ rest).
Proof.
  intros Hs Hstop. destruct s as [|c t]; simpl in *.
  - inversion Hs; subst. simpl.
    destruct (number_stop_cases rest Hstop) as [->|(c & t & -> & [->| ->])]; reflexivity.
  - destruct ((c =? 101) || (c =? 69)); [|inversion Hs; subst; reflexivity].
    destruct t as [|d t2]; simpl in *.
    + inversion Hs; subst.
      destruct (number_stop_cases rest Hstop) as [->|(c' & t' & -> & [->| ->])]; reflexivity.
    + destruct ((d =? 43) || (d =? 45)).
      * destruct (span_digits t2) as [ds r'] eqn:E.
        rewrite (span_digits_app t2 rest ds r' E (number_stop_digit_stop _ Hstop)).
        destruct ds; inversion Hs; subst; reflexivity.
      * change (d :: t2 ++ rest) with ((d :: t2) ++ rest).
        destruct (span_digits (d :: t2)) as [ds r'] eqn:E.
        rewrite (span_digits_app (d :: t2) rest ds r' E (number_stop_digit_stop _ Hstop)).
        destruct ds; inversion Hs; subst; reflexivity.
Qed.

Lemma match_integer_app (s rest i r : str) :
  match_integer s = Some (i, r) ->
  digit_stop rest = true ->
  match_integer (s ++ rest) = Some (i, r ++ rest).
Proof.
  intros Hs Hstop. unfold match_integer in *.
  assert (Hdig : forall sign s1, 
    match s1 with
    | c :: t =>
        if c =? 48 then Some (sign ++ [48], t)
        else if is_digit c then let '(ds, r) := span_digits t in Some (sign ++ c :: ds, r)
        else None
    | [] => None
    end = Some (i, r) ->
    match s1 ++ rest with
    | c :: t =>
        if c =? 48 then Some (sign ++ [48], t)
        else if is_digit c then let '(ds, r) := span_digits t in Some (sign ++ c :: ds, r)
        else None
    | [] => None
    end = Some (i, r ++ rest)).
  { intros sign [|c t] H; [discriminate|]. simpl.
    destruct (c =? 48); [inversion H; subst; reflexivity|].
    destruct (is_digit c); [|discriminate].
    destruct (span_digits t) as [ds r'] eqn:E.
    rewrite (span_digits_app t rest ds r' E Hstop). inversion H; subst. reflexivity. }
  destruct s as [|c t]; [discriminate|]. simpl.
  destruct (c =? 45).
  - apply (Hdig [45] t Hs).
  - apply (Hdig [] (c :: t) Hs).
Qed.

Lemma match_number_app (s rest i f e r : str) :
  match_number s = Some (i, f, e, r) ->
  number_stop rest = true ->
  match_number (s ++ rest) = Some (i, f, e, r ++ rest).
Proof.
  unfold match_number. intros Hs Hstop.
  destruct (match_integer s) as [[i' r0]|] eqn:Ei; [|discriminate].
  rewrite (match_integer_app s rest i' r0 Ei (number_stop_digit_stop _ Hstop)).
  destruct (match_frac r0) as [f' r1] eqn:Ef.
  rewrite (match_frac_app r0 rest f' r1 Ef Hstop).
  destruct (match_exp r1) as [e' r2] eqn:Ee.
  rewrite (match_exp_app r1 rest e' r2 Ee Hstop).
  inversion Hs; subst. reflexivity.
Qed.

Lemma match_integer_spec (s i r : str) :
  match_integer s = Some (i, r) ->
  s = i ++ r
  /\ (exists c t, i = c :: t /\ (is_digit c = true
        \/ (c = 45 /\ exists c' t', t = c' :: t' /\ is_digit c' = true)))
  /\ match_integer i = Some (i, [])
  /\ (i = [48] \/ i = [45; 48]
      \/ match r with [] => True | c :: _ => is_digit c = false end).
Proof.
  unfold match_integer. intros Hs.
  destruct s as [|c t]; [discriminate|].
  destruct (c =? 45) eqn:Ec.
  - apply N.eqb_eq in Ec. subst c.
    destruct t as [|c' t']; [discriminate|].
    destruct (c' =? 48) eqn:E0.
    + apply N.eqb_eq in E0. subst c'. inversion Hs; subst. simpl.
      repeat split; eauto 10.
    + destruct (is_digit c') eqn:Ed; [|discriminate].
      destruct (span_digits t') as [ds r'] eqn:E. inversion Hs; subst.
      destruct (span_digits_spec t' ds r E) as (-> & Hd & Hr).
      simpl. rewrite E0, Ed.
      rewrite (span_digits_digits ds Hd).
      repeat split; eauto 10.
  - destruct (c =? 48) eqn:E0.
    + apply N.eqb_eq in E0. subst c. inversion Hs; subst. simpl.
      repeat split; eauto 10.
    + destruct (is_digit c) eqn:Ed; [|discriminate].
      destruct (span_digits t) as [ds r'] eqn:E. inversion Hs; subst.
      destruct (span_digits_spec t ds r E) as (-> & Hd & Hr).
      simpl. rewrite Ec, E0, Ed.
      rewrite (span_digits_digits ds Hd).
      repeat split; eauto 10.
Qed.

Lemma exp_head_digit_stop (e : str) : exp_head e -> digit_stop e = true.
Proof. intros [->|(c & t & -> & [->| ->])]; reflexivity. Qed.

Lemma match_frac_spec (s f r : str) :
  match_frac s = (f, r) ->
  s = f ++ r
  /\ (f = [] \/ exists t, f = 46 :: t)
  /\ (forall e, exp_head e -> match_frac (f ++ e) = (f, e)).
Proof.
  assert (Hnil : forall e, exp_head e -> match_frac e = ([], e)).
  { intros e [->|(c & t & -> & [->| ->])]; reflexivity. }
  intros Hs. destruct s as [|c t]; simpl in Hs.
  - inversion Hs; subst. auto.
  - destruct (c =? 46) eqn:Ec; [|inversion Hs; subst; auto].
    apply N.eqb_eq in Ec. subst c.
    destruct (span_digits t) as [ds r'] eqn:E.
    destruct (span_digits_spec t ds r' E) as (-> & Hd & Hr).
    destruct ds as [|d ds]; inversion Hs; subst; [auto|].
    split; [reflexivity|]. split; [eauto|].
    intros e He. simpl app. unfold match_frac. rewrite N.eqb_refl.
    change (d :: ds ++ e) with ((d :: ds) ++ e).
    rewrite (span_digits_app (d :: ds) e (d :: ds) [] (span_digits_digits _ Hd)
               (exp_head_digit_stop e He)).
    reflexivity.
Qed.

Lemma match_exp_spec (s e r : str) :
  match_exp s = (e, r) ->
  s = e ++ r /\ match_exp e = (e, []) /\ exp_head e.
Proof.
  intros Hs. destruct s as [|c t]; simpl in Hs.
  - inversion Hs; subst. repeat split. left. reflexivity.
  - destruct ((c =? 101) || (c =? 69)) eqn:Ec;
      [|inversion Hs; subst; repeat split; left; reflexivity].
    assert (Hc : c = 101 \/ c = 69).
    { apply orb_prop in Ec as [H|H]; apply N.eqb_eq in H; auto. }
    destruct t as [|d t2].
    + simpl in Hs. inversion Hs; subst. repeat split. left. reflexivity.
    + destruct ((d =? 43) || (d =? 45)) eqn:Ed.
      * destruct (span_digits t2) as [ds r'] eqn:E.
        destruct (span_digits_spec t2 ds r' E) as (-> & Hd & Hr).
        destruct ds as [|d' ds]; inversion Hs; subst.
        { repeat split. left. reflexivity. }
        split; [reflexivity|]. split; [|right; eauto].
        simpl. rewrite Ec, Ed. rewrite (span_digits_digits _ Hd). reflexivity.
      * destruct (span_digits (d :: t2)) as [ds r'] eqn:E.
        destruct (span_digits_spec (d :: t2) ds r' E) as (Heq & Hd & Hr).
        destruct ds as [|d' ds]; inversion Hs; subst.
        { repeat split. left. reflexivity. }
        simpl in Heq. inversion Heq; subst.
        split; [reflexivity|]. split; [|right; eauto].
        simpl app. unfold match_exp. rewrite Ec, Ed.
        rewrite (span_digits_digits _ Hd). reflexivity.
Qed.

Lemma match_number_spec (s i f e r : str) :
  match_number s = Some (i, f, e, r) ->
  s = i ++ f ++ e ++ r /\ match_number (i ++ f ++ e) = Some (i, f, e, []).
Proof.
  unfold match_number. intros Hs.
  destruct (match_integer s) as [[i' r0]|] eqn:Ei; [|discriminate].
  destruct (match_frac r0) as [f' r1] eqn:Ef.
  destruct (match_exp r1) as [e' r2] eqn:Ee.
  inversion Hs; subst. clear Hs.
  destruct (match_integer_spec s i r0 Ei) as (-> & _ & Hi & _).
  destruct (match_frac_spec r0 f r1 Ef) as (-> & Hf & Hfe).
  destruct (match_exp_spec r1 e r Ee) as (-> & He & Hh).
  split; [reflexivity|].
  assert (Hstop : digit_stop (f ++ e) = true).
  { destruct Hf as [->|(t & ->)]; [apply exp_head_digit_stop; exact Hh|reflexivity]. }
  rewrite (match_integer_app i (f ++ e) i [] Hi Hstop). simpl app.
  rewrite (Hfe e Hh), He. reflexivity.
Qed.

Lemma match_number_head (s i f e r : str) :
  match_number s = Some (i, f, e, r) ->
  exists c t, s = c :: t
    /\ (is_digit c = true \/ (c = 45 /\ exists c' t', t = c' :: t' /\ is_digit c' = true)).
Proof.
  unfold match_number. intros Hs.
  destruct (match_integer s) as [[i' r0]|] eqn:Ei; [|discriminate].
  destruct (match_integer_spec s i' r0 Ei) as (-> & (c & t & -> & Hc) & _).
  exists c, (t ++ r0). split; [reflexivity|].
  destruct Hc as [Hc|(-> & c' & t' & -> & Hc')]; [left; exact Hc|].
  right. split; [reflexivity|]. exists c', (t' ++ r0). auto.
Qed.

Lemma match_number_stop (rest : str) :
  number_stop rest = true -> match_frac rest = ([], rest) /\ match_exp rest = ([], rest).
Proof.
  intros H. destruct (number_stop_cases rest H) as [->|(c & t & -> & [->| ->])]; auto.
Qed.

Lemma match_integer_int_repr (z : Z) :
  match_integer (int_repr z) = Some (int_repr z, [])
  /\ int_of_literal (int_repr z) = z.
Proof.
  destruct z as [|p|p]; [split; reflexivity| |];
    destruct (pos_to_uint_head p) as (c & ds & E & Hd & H0 & Hm);
    pose proof (digits_of_uint_digits (Pos.to_uint p)) as Hall;
    pose proof (uint_of_digits_of_uint (Pos.to_uint p)) as Hu;
    pose proof (DecimalPos.Unsigned.of_to p) as Hp;
    unfold int_repr, match_integer, int_of_literal; rewrite E in *;
    simpl in Hall; apply andb_prop in Hall as [_ Hall].
  - rewrite Hm, H0, Hd, (span_digits_digits ds Hall). split; [reflexivity|].
    rewrite Hu. unfold N.of_uint. rewrite Hp. reflexivity.
  - rewrite N.eqb_refl, H0, Hd, (span_digits_digits ds Hall). split; [reflexivity|].
    rewrite Hu. unfold N.of_uint. rewrite Hp. reflexivity.
Qed.

Lemma scan_number_int_repr (z : Z) (rest : str) :
  number_stop rest = true ->
  scan_number (int_repr z ++ rest) = Some (JInt z, rest).
Proof.
  intros Hstop. destruct (match_integer_int_repr z) as [Hi Hz].
  destruct (match_number_stop rest Hstop) as [Hf He].
  unfold scan_number, match_number.
  rewrite (match_integer_app _ rest _ [] Hi (number_stop_digit_stop _ Hstop)).
  simpl app. rewrite Hf, He, Hz. reflexivity.
Qed.

(** ** Strings and whitespace *)

Lemma below_32 (P : N -> Prop) :
  (forall n : nat, (n < 32)%nat -> P (N.of_nat n)) -> forall c, c < 32 -> P c.
Proof.
  intros H c Hc. rewrite <- (N2Nat.id c). apply H. lia.
Qed.

Lemma hex4_control (c : char) :
  c < 32 -> hex4 48 48 (hex_digit (c / 16)) (hex_digit (c mod 16)) = Some c.
Proof.
  revert c. apply below_32. intros n Hn.
  do 32 (destruct n as [|n]; [vm_compute; reflexivity|]). lia.
Qed.

Lemma scanstring_u (h1 h2 h3 h4 u : char) (t5 : str) :
  hex4 h1 h2 h3 h4 = Some u ->
  is_high_surrogate u = false ->
  scanstring (92 :: 117 :: h1 :: h2 :: h3 :: h4 :: t5) = cons_char u (scanstring t5).
Proof.
  intros Hh Hs. simpl. rewrite Hh, Hs.
  destruct t5 as [|? [|? [|? [|? [|? [|? ?]]]]]]; reflexivity.
Qed.

Lemma scanstring_plain (c : char) (t : str) :
  (c =? 34) = false -> (c =? 92) = false -> (c <? 32) = false ->
  scanstring (c :: t) = cons_char c (scanstring t).
Proof. intros H1 H2 H3. simpl. rewrite H1, H2, H3. reflexivity. Qed.

Lemma scanstring_escape_char (c : char) (t : str) :
  scanstring (escape_char c ++ t) = cons_char c (scanstring t).
Proof.
  unfold escape_char.
  destruct (c =? 34) eqn:E1; [apply N.eqb_eq in E1; subst; reflexivity|].
  destruct (c =? 92) eqn:E2; [apply N.eqb_eq in E2; subst; reflexivity|].
  destruct (c =? 8) eqn:E3; [apply N.eqb_eq in E3; subst; reflexivity|].
  destruct (c =? 12) eqn:E4; [apply N.eqb_eq in E4; subst; reflexivity|].
  destruct (c =? 10) eqn:E5; [apply N.eqb_eq in E5; subst; reflexivity|].
  destruct (c =? 13) eqn:E6; [apply N.eqb_eq in E6; subst; reflexivity|].
  destruct (c =? 9) eqn:E7; [apply N.eqb_eq in E7; subst; reflexivity|].
  destruct (c <? 32) eqn:E8.
  - apply N.ltb_lt in E8. simpl app.
    apply scanstring_u; [apply hex4_control; exact E8|].
    unfold is_high_surrogate. apply andb_false_iff. left. apply N.leb_gt. lia.
  - apply scanstring_plain; assumption.
Qed.

Lemma scanstring_encode (s rest : str) :
  scanstring (flat_map escape_char s ++ 34 :: rest) = Some (s, rest).
Proof.
  induction s as [|c s IH]; [reflexivity|].
  simpl flat_map. rewrite <- app_assoc, scanstring_escape_char, IH. reflexivity.
Qed.

Lemma skip_ws_spaces (n : nat) (s : str) : skip_ws (repeat 32 n ++ s) = skip_ws s.
Proof. induction n as [|n IH]; [reflexivity|exact IH]. Qed.

Lemma skip_ws_newline_indent (level : nat) (s : str) :
  skip_ws (newline_indent level ++ s) = skip_ws s.
Proof. unfold newline_indent. simpl. apply skip_ws_spaces. Qed.

Lemma skip_ws_head (c : char) (s : str) : is_ws c = false -> skip_ws (c :: s) = c :: s.
Proof. intros H. simpl. rewrite H. reflexivity. Qed.

Lemma length_newline_indent (level : nat) : (1 <= length (newline_indent level))%nat.
Proof. unfold newline_indent. simpl. lia. Qed.

Lemma number_stop_newline_indent (level : nat) (s : str) :
  number_stop (newline_indent level ++ s) = true.
Proof. reflexivity. Qed.

(** ** Dictionaries *)

Lemma dict_get_None (k : str) (d : list (str * json)) :
  dict_get k d = None <-> ~ In k (keys d).
Proof.
  induction d as [|[k' v] d IH]; simpl; [tauto|].
  destruct (str_eqb k' k) eqn:E.
  - apply str_eqb_eq in E. split; [discriminate|]. intros H. exfalso. apply H. auto.
  - apply str_eqb_neq in E. rewrite IH. tauto.
Qed.

Lemma dict_set_fresh (k : str) (v : json) (d : list (str * json)) :
  ~ In k (keys d) -> dict_set k v d = d ++ [(k, v)].
Proof.
  induction d as [|[k' v'] d IH]; simpl; intros H; [reflexivity|].
  destruct (str_eqb k' k) eqn:E.
  - apply str_eqb_eq in E. exfalso. apply H. auto.
  - rewrite IH; [reflexivity|]. tauto.
Qed.

Lemma keys_dict_set_In (k : str) (v : json) (d : list (str * json)) :
  In k (keys d) -> keys (dict_set k v d) = keys d.
Proof.
  induction d as [|[k' v'] d IH]; simpl; intros H; [contradiction|].
  destruct (str_eqb k' k) eqn:E.
  - apply str_eqb_eq in E. subst. reflexivity.
  - apply str_eqb_neq in E. simpl. rewrite IH; [reflexivity|].
    destruct H as [H|H]; [congruence|exact H].
Qed.

Lemma In_keys_dec (k : str) (d : list (str * json)) : {In k (keys d)} + {~ In k (keys d)}.
Proof. apply in_dec. intros x y. exact (decide (x = y)). Qed.

Lemma NoDup_keys_dict_set (k : str) (v : json) (d : list (str * json)) :
  NoDup (keys d) -> NoDup (keys (dict_set k v d)).
Proof.
  intros H. destruct (In_keys_dec k d) as [Hin|Hin].
  - rewrite keys_dict_set_In; assumption.
  - rewrite (dict_set_fresh k v d Hin). unfold keys. rewrite map_app. simpl.
    apply NoDup_app. repeat split; [exact H| |apply NoDup_singleton].
    intros x Hx Hx'. apply list_elem_of_In in Hx. apply list_elem_of_singleton in Hx'. subst.
    contradiction.
Qed.

Lemma dict_of_pairs_acc (pairs acc : list (str * json)) :
  NoDup (keys (acc ++ pairs)) ->
  fold_left (fun d kv => dict_set (fst kv) (snd kv) d) pairs acc = acc ++ pairs.
Proof.
  revert acc. induction pairs as [|[k v] pairs IH]; intros acc H; simpl.
  - rewrite app_nil_r. reflexivity.
  - assert (Hk : ~ In k (keys acc)).
    { unfold keys in *. rewrite map_app in H. apply NoDup_app in H as (_ & H & _).
      intros Hin. apply (H k); [apply list_elem_of_In; exact Hin|]. simpl. left. }
    rewrite (dict_set_fresh k v acc Hk).
    rewrite IH; rewrite <- app_assoc; [reflexivity|exact H].
Qed.

Lemma dict_of_pairs_NoDup (pairs : list (str * json)) :
  NoDup (keys pairs) -> dict_of_pairs pairs = pairs.
Proof. intros H. unfold dict_of_pairs. apply (dict_of_pairs_acc pairs [] H). Qed.

(** ** Reading back what the encoder wrote *)

Lemma digit_eqb (c k : N) : is_digit c = true -> (k < 48 \/ 57 < k) -> (c =? k) = false.
Proof.
  unfold is_digit. intros H Hk. apply andb_prop in H as [H1 H2].
  apply N.leb_le in H1, H2. apply N.eqb_neq. lia.
Qed.

Lemma scan_once_number (fuel : nat) (s : str) x :
  match_number s = Some x -> scan_once (S fuel) s = scan_number s.
Proof.
  destruct x as [[[i f] e] r]. intros H.
  destruct (match_number_head s i f e r H) as (c & t & -> & Hc).
  cbn [scan_once].
  destruct Hc as [Hc|(-> & c' & t' & -> & Hc')].
  - rewrite !(digit_eqb c) by (assumption || lia). reflexivity.
  - simpl. rewrite (digit_eqb c' 73) by (assumption || lia). reflexivity.
Qed.

Lemma digit_head (c : N) :
  is_digit c = true -> is_ws c = false /\ (c =? 93) = false /\ (c =? 125) = false.
Proof.
  intros H. unfold is_ws. rewrite !(digit_eqb c) by (assumption || lia). auto.
Qed.

Lemma float_literal_cases (lit : str) :
  float_literal lit = true ->
  (exists i f e, match_number lit = Some (i, f, e, []) /\ lit = i ++ f ++ e
                 /\ (f <> [] \/ e <> []))
  \/ lit = py "NaN" \/ lit = py "Infinity" \/ lit = py "-Infinity".
Proof.
  unfold float_literal. intros H.
  apply orb_prop in H as [H|H]; [|right; right; right; apply str_eqb_eq; exact H].
  apply orb_prop in H as [H|H]; [|right; right; left; apply str_eqb_eq; exact H].
  apply orb_prop in H as [H|H]; [|right; left; apply str_eqb_eq; exact H].
  left. destruct (match_number lit) as [[[[i f] e] r]|] eqn:E; [|discriminate].
  destruct r; [|discriminate].
  destruct (match_number_spec lit i f e [] E) as [Hl _].
  rewrite !app_nil_r in Hl.
  exists i, f, e. split; [reflexivity|]. split; [exact Hl|].
  destruct f; [|left; discriminate]. destruct e; [discriminate|right; discriminate].
Qed.

Lemma iterencode_head (level : nat) (v : json) :
  wf v = true -> value_head (iterencode level v).
Proof.
  unfold value_head. destruct v as [|[|]|z|lit|s|[|x xs]|[|kv ps]]; simpl; intros Hwf;
    try (eexists _, _; repeat split; reflexivity).
  - destruct (match_integer_int_repr z) as [Hi _].
    destruct (match_integer_spec _ _ _ Hi) as (_ & (c & t & E & Hc) & _).
    rewrite E. exists c, t. split; [reflexivity|].
    destruct Hc as [Hc|(-> & _)]; [apply digit_head; exact Hc|auto].
  - destruct (float_literal_cases lit Hwf) as [(i & f & e & Hm & _ & _)|[->|[->| ->]]];
      try (eexists _, _; repeat split; reflexivity).
    destruct (match_number_head lit i f e [] Hm) as (c & t & -> & Hc).
    exists c, t. split; [reflexivity|].
    destruct Hc as [Hc|(-> & _)]; [apply digit_head; exact Hc|auto].
Qed.

Lemma scan_once_float (fuel : nat) (lit rest : str) :
  float_literal lit = true ->
  number_stop rest = true ->
  scan_once (S fuel) (lit ++ rest) = Some (JFloat lit, rest).
Proof.
  intros Hf Hstop.
  destruct (float_literal_cases lit Hf) as [(i & f & e & Hm & Hl & Hne)|[->|[->| ->]]];
    try reflexivity.
  pose proof (match_number_app lit rest i f e [] Hm Hstop) as Happ.
  rewrite (scan_once_number fuel _ _ Happ). unfold scan_number. rewrite Happ.
  simpl app. rewrite <- Hl.
  destruct f; [destruct e; [destruct Hne; congruence|reflexivity]|reflexivity].
Qed.

Lemma scan_once_int (fuel : nat) (z : Z) (rest : str) :
  number_stop rest = true ->
  scan_once (S fuel) (int_repr z ++ rest) = Some (JInt z, rest).
Proof.
  intros Hstop. pose proof (scan_number_int_repr z rest Hstop) as H.
  unfold scan_number in H.
  destruct (match_number (int_repr z ++ rest)) as [x|] eqn:E; [|discriminate].
  rewrite (scan_once_number fuel _ x E). unfold scan_number. rewrite E. exact H.
Qed.

Section ReadBack.

#[local] Opaque newline_indent.
#[local] Arguments iterencode : simpl never.

Lemma skip_ws_value (level : nat) (v : json) (rest : str) :
  wf v = true -> skip_ws (iterencode level v ++ rest) = iterencode level v ++ rest.
Proof.
  intros Hwf. destruct (iterencode_head level v Hwf) as (c & t & E & Hws & _).
  rewrite E. simpl app. apply skip_ws_head. exact Hws.
Qed.

Lemma parse_array_iterencode (level : nat) (xs : list json) :
  Forall (fun v => wf v = true /\ reads_back v) xs ->
  forall x rest fuel,
    wf x = true -> reads_back x ->
    (length (iterencode (S level) x ++ array_items level xs
             ++ newline_indent level ++ [93])%N <= fuel)%nat ->
    parse_array fuel
      (iterencode (S level) x ++ array_items level xs
       ++ newline_indent level ++ 93 :: rest) = Some (x :: xs, rest).
Proof.
  induction 1 as [|y ys [Hwy Hy] Hys IH]; intros x rest fuel Hwx Hx Hlen.
  - simpl in Hlen. simpl app.
    pose proof (length_newline_indent level) as Hnl.
    rewrite !length_app in Hlen. simpl in Hlen.
    destruct fuel as [|fuel]; [lia|]. cbn [parse_array].
    rewrite Hx; [|reflexivity|lia].
    rewrite skip_ws_newline_indent. simpl. reflexivity.
  - change (array_items level (y :: ys))
      with (([44] ++ newline_indent (S level) ++ iterencode (S level) y)
            ++ array_items level ys) in *.
    pose proof (length_newline_indent (S level)) as Hnl.
    repeat first [rewrite length_app in Hlen | progress simpl in Hlen].
    rewrite <- !app_assoc.
    destruct fuel as [|fuel]; [lia|]. cbn [parse_array].
    rewrite Hx; [|reflexivity|lia].
    simpl skip_ws. cbn [N.eqb Pos.eqb].
    rewrite skip_ws_newline_indent, (skip_ws_value (S level) y _ Hwy).
    rewrite (IH y rest fuel Hwy Hy); [reflexivity|].
    repeat first [rewrite length_app | progress simpl]. lia.
Qed.

Lemma encode_basestring_app (k rest : str) :
  encode_basestring k ++ rest = 34 :: flat_map escape_char k ++ 34 :: rest.
Proof. unfold encode_basestring. simpl. rewrite <- app_assoc. reflexivity. Qed.

Lemma length_encode_basestring (k : str) : (2 <= length (encode_basestring k))%nat.
Proof. unfold encode_basestring. simpl. rewrite length_app. simpl. lia. Qed.

Lemma parse_object_iterencode (level : nat) (ps : list (str * json)) :
  Forall (fun kv => wf (snd kv) = true /\ reads_back (snd kv)) ps ->
  forall k v rest fuel,
    wf v = true -> reads_back v ->
    (length (encode_basestring k ++ [58; 32] ++ iterencode (S level) v
             ++ object_items level ps ++ newline_indent level ++ [125])%N <= fuel)%nat ->
    parse_object fuel
      (encode_basestring k ++ [58; 32] ++ iterencode (S level) v
       ++ object_items level ps ++ newline_indent level ++ 125 :: rest)
    = Some ((k, v) :: ps, rest).
Proof.
  induction 1 as [|[k' v'] ps' [Hwy Hy] Hys IH]; intros k v rest fuel Hwv Hv Hlen;
    pose proof (length_encode_basestring k) as Hk.
  - change (object_items level []) with (@nil N) in *.
    pose proof (length_newline_indent level) as Hnl.
    repeat first [rewrite length_app in Hlen | progress simpl in Hlen].
    destruct fuel as [|fuel]; [lia|].
    rewrite encode_basestring_app. cbn [parse_object]. cbn [N.eqb Pos.eqb].
    rewrite scanstring_encode. simpl skip_ws. cbn [N.eqb Pos.eqb].
    change (skip_ws (32 :: ?x)) with (skip_ws x).
    rewrite (skip_ws_value (S level) v _ Hwv).
    rewrite Hv; [|reflexivity|lia].
    rewrite skip_ws_newline_indent. simpl. reflexivity.
  - change (object_items level ((k', v') :: ps'))
      with (([44] ++ newline_indent (S level) ++ encode_basestring k' ++ [58; 32]
             ++ iterencode (S level) v') ++ object_items level ps') in *.
    pose proof (length_newline_indent (S level)) as Hnl.
    repeat first [rewrite length_app in Hlen | progress simpl in Hlen].
    rewrite <- !app_assoc.
    destruct fuel as [|fuel]; [lia|].
    rewrite encode_basestring_app. cbn [parse_object]. cbn [N.eqb Pos.eqb].
    rewrite scanstring_encode. simpl skip_ws. cbn [N.eqb Pos.eqb].
    change (skip_ws (32 :: ?x)) with (skip_ws x).
    rewrite (skip_ws_value (S level) v _ Hwv).
    rewrite Hv; [|reflexivity|lia].
    simpl skip_ws. cbn [N.eqb Pos.eqb].
    rewrite skip_ws_newline_indent.
    rewrite (skip_ws_head 34) by reflexivity.
    match goal with
    | |- context [parse_object fuel ?t] =>
        change t with (encode_basestring k' ++ [58; 32] ++ iterencode (S level) v'
                       ++ object_items level ps' ++ newline_indent level ++ 125 :: rest)
    end.
    rewrite (IH k' v' rest fuel Hwy Hy); [reflexivity|].
    repeat first [rewrite length_app | progress simpl]. lia.
Qed.

Lemma value_head_app (s rest : str) : value_head s -> value_head (s ++ rest).
Proof. intros (c & t & -> & H). exists c, (t ++ rest). split; [reflexivity|exact H]. Qed.

Lemma scan_once_array (fuel : nat) (s : str) :
  value_head (skip_ws s) ->
  scan_once (S fuel) (91 :: s)
  = match parse_array fuel (skip_ws s) with
    | Some (items, r) => Some (JArr items, r)
    | None => None
    end.
Proof.
  intros (c & t & E & _ & H93 & _). cbn [scan_once]. cbn [N.eqb Pos.eqb].
  rewrite E, H93. reflexivity.
Qed.

Lemma scan_once_object (fuel : nat) (s : str) :
  value_head (skip_ws s) ->
  scan_once (S fuel) (123 :: s)
  = match parse_object fuel (skip_ws s) with
    | Some (pairs, r) => Some (JObj (dict_of_pairs pairs), r)
    | None => None
    end.
Proof.
  intros (c & t & E & _ & _ & H125). cbn [scan_once]. cbn [N.eqb Pos.eqb].
  rewrite E, H125. reflexivity.
Qed.

Lemma value_head_string (k rest : str) : value_head (encode_basestring k ++ rest).
Proof. rewrite encode_basestring_app. eexists _, _. repeat split; reflexivity. Qed.

Lemma wf_arr (items : list json) :
  wf (JArr items) = true -> Forall (fun v => wf v = true) items.
Proof. simpl. intros H. apply List.Forall_forall. intros x Hx. apply (proj1 (forallb_forall _ _) H x Hx). Qed.

Lemma wf_obj (pairs : list (str * json)) :
  wf (JObj pairs) = true ->
  NoDup (keys pairs) /\ Forall (fun kv => wf (snd kv) = true) pairs.
Proof.
  simpl. intros H. apply andb_prop in H as [H1 H2]. split.
  - apply bool_decide_eq_true in H1. exact H1.
  - apply List.Forall_forall. intros x Hx. apply (proj1 (forallb_forall _ _) H2 x Hx).
Qed.

Lemma reads_back_wf (v : json) : wf v = true -> reads_back v.
Proof.
  induction v as [|b|z|lit|s|items IH|pairs IH] using json_induction;
    intros Hwf level rest fuel Hstop Hlen.
  - destruct fuel as [|fuel]; [simpl in Hlen; lia|]. reflexivity.
  - destruct fuel as [|fuel]; [destruct b; simpl in Hlen; lia|]. destruct b; reflexivity.
  - destruct fuel as [|fuel].
    { destruct (iterencode_head level (JInt z) eq_refl) as (c & t & E & _).
      rewrite E in Hlen. simpl in Hlen. lia. }
    apply scan_once_int. exact Hstop.
  - destruct fuel as [|fuel].
    { destruct (iterencode_head level (JFloat lit) Hwf) as (c & t & E & _).
      rewrite E in Hlen. simpl in Hlen. lia. }
    apply scan_once_float; assumption.
  - change (iterencode level (JStr s)) with (encode_basestring s) in *.
    pose proof (length_encode_basestring s).
    destruct fuel as [|fuel]; [lia|].
    rewrite encode_basestring_app. cbn [scan_once]. cbn [N.eqb Pos.eqb].
    rewrite scanstring_encode. reflexivity.
  - pose proof (wf_arr items Hwf) as Hall.
    destruct items as [|x xs].
    { destruct fuel as [|fuel]; [simpl in Hlen; lia|]. reflexivity. }
    change (iterencode level (JArr (x :: xs)))
      with ([91] ++ newline_indent (S level) ++ iterencode (S level) x
            ++ array_items level xs ++ newline_indent level ++ [93]) in *.
    inversion IH as [|? ? IHx IHxs]; subst. inversion Hall as [|? ? Hwx Hwxs]; subst.
    repeat first [rewrite length_app in Hlen | progress simpl in Hlen].
    destruct fuel as [|fuel]; [lia|].
    rewrite <- !app_assoc. simpl app.
    rewrite scan_once_array; rewrite skip_ws_newline_indent, (skip_ws_value _ _ _ Hwx);
      [|apply value_head_app, iterencode_head; exact Hwx].
    rewrite (parse_array_iterencode level xs); [reflexivity| |exact Hwx|exact (IHx Hwx)|].
    + clear - IHxs Hwxs. induction IHxs as [|y ys Hy Hys IH]; [constructor|].
      inversion Hwxs; subst. constructor; auto.
    + repeat first [rewrite length_app | progress simpl]. lia.
  - destruct (wf_obj pairs Hwf) as [Hnd Hall].
    destruct pairs as [|[k v] ps].
    { destruct fuel as [|fuel]; [simpl in Hlen; lia|]. reflexivity. }
    change (iterencode level (JObj ((k, v) :: ps)))
      with ([123] ++ newline_indent (S level)
            ++ encode_basestring k ++ [58; 32] ++ iterencode (S level) v
            ++ object_items level ps ++ newline_indent level ++ [125]) in *.
    inversion IH as [|? ? IHx IHxs]; subst. inversion Hall as [|? ? Hwx Hwxs]; subst.
    simpl in IHx, Hwx.
    repeat first [rewrite length_app in Hlen | progress simpl in Hlen].
    destruct fuel as [|fuel]; [lia|].
    rewrite <- !app_assoc. simpl app.
    rewrite scan_once_object; rewrite skip_ws_newline_indent;
      (rewrite skip_ws_head; [|reflexivity]);
      [|eexists _, _; repeat split; reflexivity].
    match goal with
    | |- context [parse_object fuel ?t] =>
        change t with (encode_basestring k ++ [58; 32] ++ iterencode (S level) v
                       ++ object_items level ps ++ newline_indent level ++ 125 :: rest)
    end.
    rewrite (parse_object_iterencode level ps);
      [rewrite (dict_of_pairs_NoDup _ Hnd); reflexivity| |exact Hwx|exact (IHx Hwx)|].
    + clear - IHxs Hwxs. induction IHxs as [|y ys Hy Hys IH]; [constructor|].
      inversion Hwxs; subst. constructor; auto.
    + repeat first [rewrite length_app | progress simpl]. lia.
Qed.

Lemma json_loads_dumps (v : json) : wf v = true -> json_loads (json_dumps v) = Some v.
Proof.
  intros Hwf. unfold json_loads, json_dumps.
  pose proof (skip_ws_value 0 v [] Hwf) as Hs.
  pose proof (reads_back_wf v Hwf 0%nat [] (2 * length (iterencode 0 v) + 2)%nat eq_refl) as Hr.
  rewrite app_nil_r in Hs, Hr. rewrite Hs, Hr; [reflexivity|lia].
Qed.

End ReadBack.

(** ** What the decoder returns is well formed *)

Lemma forallb_dict_set (k : str) (v : json) (d : list (str * json)) :
  wf v = true ->
  forallb (fun kv => wf (snd kv)) d = true ->
  forallb (fun kv => wf (snd kv)) (dict_set k v d) = true.
Proof.
  intros Hv. induction d as [|[k' v'] d IH]; simpl; intros H.
  - rewrite Hv. reflexivity.
  - apply andb_prop in H as [H1 H2]. destruct (str_eqb k' k); simpl.
    + rewrite Hv, H2. reflexivity.
    + rewrite H1, (IH H2). reflexivity.
Qed.

Lemma wf_dict_of_pairs_acc (pairs acc : list (str * json)) :
  forallb (fun kv => wf (snd kv)) pairs = true ->
  NoDup (keys acc) -> forallb (fun kv => wf (snd kv)) acc = true ->
  let d := fold_left (fun d kv => dict_set (fst kv) (snd kv) d) pairs acc in
  NoDup (keys d) /\ forallb (fun kv => wf (snd kv)) d = true.
Proof.
  revert acc. induction pairs as [|[k v] pairs IH]; simpl; intros acc Hp Hnd Hacc.
  - auto.
  - apply andb_prop in Hp as [Hv Hp]. apply IH.
    + exact Hp.
    + apply NoDup_keys_dict_set. exact Hnd.
    + apply forallb_dict_set; assumption.
Qed.

Lemma wf_dict_of_pairs (pairs : list (str * json)) :
  forallb (fun kv => wf (snd kv)) pairs = true -> wf (JObj (dict_of_pairs pairs)) = true.
Proof.
  intros H. destruct (wf_dict_of_pairs_acc pairs [] H (NoDup_nil_2 (A:=str)) eq_refl) as [Hnd Hall].
  simpl. apply andb_true_intro. split; [apply bool_decide_eq_true; exact Hnd|exact Hall].
Qed.

Lemma scan_number_wf (s : str) (v : json) (r : str) :
  scan_number s = Some (v, r) -> wf v = true.
Proof.
  unfold scan_number. destruct (match_number s) as [[[[i f] e] r']|] eqn:E; [|discriminate].
  destruct (match_number_spec s i f e r' E) as [_ Hm].
  destruct f as [|c f]; [destruct e as [|c e]|]; intros H; inversion H; subst; clear H;
    try reflexivity; cbn [wf]; unfold float_literal; simpl app in Hm; rewrite Hm; reflexivity.
Qed.

Lemma scan_constant_wf (lit : str) (c v : json) (s r : str) :
  wf c = true -> scan_constant lit c s = Some (v, r) -> wf v = true.
Proof.
  unfold scan_constant. intros Hc H. destruct (strip_prefix lit s); inversion H; subst. exact Hc.
Qed.

Lemma scan_wf (fuel : nat) :
  (forall s v r, scan_once fuel s = Some (v, r) -> wf v = true)
  /\ (forall s vs r, parse_array fuel s = Some (vs, r) -> forallb wf vs = true)
  /\ (forall s ps r, parse_object fuel s = Some (ps, r) ->
        forallb (fun kv => wf (snd kv)) ps = true).
Proof.
  induction fuel as [|fuel (IHs & IHa & IHo)]; [repeat split; intros; discriminate|].
  repeat split.
  - intros [|c t] v r H; [discriminate|]. cbn [scan_once] in H.
    destruct (c =? 34).
    { destruct (scanstring t) as [[x r']|]; inversion H; subst. reflexivity. }
    destruct (c =? 123).
    { destruct (skip_ws t) as [|c' t']; [discriminate|].
      destruct (c' =? 125); [inversion H; subst; reflexivity|].
      destruct (parse_object fuel (c' :: t')) as [[ps r']|] eqn:E; inversion H; subst.
      apply wf_dict_of_pairs. exact (IHo _ _ _ E). }
    destruct (c =? 91).
    { destruct (skip_ws t) as [|c' t']; [discriminate|].
      destruct (c' =? 93); [inversion H; subst; reflexivity|].
      destruct (parse_array fuel (c' :: t')) as [[vs r']|] eqn:E; inversion H; subst.
      exact (IHa _ _ _ E). }
    destruct (c =? 110); [eapply scan_constant_wf; [|exact H]; reflexivity|].
    destruct (c =? 116); [eapply scan_constant_wf; [|exact H]; reflexivity|].
    destruct (c =? 102); [eapply scan_constant_wf; [|exact H]; reflexivity|].
    destruct (c =? 78); [eapply scan_constant_wf; [|exact H]; reflexivity|].
    destruct (c =? 73); [eapply scan_constant_wf; [|exact H]; reflexivity|].
    destruct (if c =? 45 then _ else _); [inversion H; subst; reflexivity|].
    exact (scan_number_wf _ _ _ H).
  - intros s vs r H. cbn [parse_array] in H.
    destruct (scan_once fuel s) as [[v r1]|] eqn:E; [|discriminate].
    pose proof (IHs _ _ _ E) as Hv.
    destruct (skip_ws r1) as [|c t]; [discriminate|].
    destruct (c =? 93); [inversion H; subst; simpl; rewrite Hv; reflexivity|].
    destruct (c =? 44); [|discriminate].
    destruct (parse_array fuel (skip_ws t)) as [[vs' r']|] eqn:E'; inversion H; subst.
    simpl. rewrite Hv, (IHa _ _ _ E'). reflexivity.
  - intros [|q t] ps r H; [discriminate|]. cbn [parse_object] in H.
    destruct (q =? 34); [|discriminate].
    destruct (scanstring t) as [[k r0]|]; [|discriminate].
    destruct (skip_ws r0) as [|c t1]; [discriminate|].
    destruct (c =? 58); [|discriminate].
    destruct (scan_once fuel (skip_ws t1)) as [[v r1]|] eqn:E; [|discriminate].
    pose proof (IHs _ _ _ E) as Hv.
    destruct (skip_ws r1) as [|c' t2]; [discriminate|].
    destruct (c' =? 125); [inversion H; subst; simpl; rewrite Hv; reflexivity|].
    destruct (c' =? 44); [|discriminate].
    destruct (parse_object fuel (skip_ws t2)) as [[ps' r']|] eqn:E'; inversion H; subst.
    simpl. rewrite Hv, (IHo _ _ _ E'). reflexivity.
Qed.

Lemma json_loads_wf (s : str) (v : json) : json_loads s = Some v -> wf v = true.
Proof.
  unfold json_loads. intros H.
  destruct (scan_once _ _) as [[v' r]|] eqn:E; [|discriminate].
  destruct (skip_ws r); inversion H; subst.
  exact (proj1 (scan_wf _) _ _ _ E).
Qed.

(** Saving a text and reading it back gives the document of the text. *)
Lemma json_loads_dumps_loads (s : str) (v : json) :
  json_loads s = Some v -> json_loads (json_dumps v) = Some v.
Proof. intros H. apply json_loads_dumps. exact (json_loads_wf s v H). Qed.

(** ** The decoder consumes its input, and its bound on the depth is enough *)

Lemma skip_ws_length (s : str) : (length (skip_ws s) <= length s)%nat.
Proof. induction s as [|c s IH]; simpl; [lia|]. destruct (is_ws c); simpl; lia. Qed.

Lemma cons_char_length (c : char) (o : option (str * str)) (x r : str) (n : nat) :
  cons_char c o = Some (x, r) ->
  (forall x' r', o = Some (x', r') -> (length r' < n)%nat) ->
  (length r < n)%nat.
Proof.
  destruct o as [[x' r']|]; simpl; [|discriminate]. intros H Hn. inversion H; subst.
  exact (Hn _ _ eq_refl).
Qed.

Lemma scanstring_length (s x r : str) :
  scanstring s = Some (x, r) -> (length r < length s)%nat.
Proof.
  remember (length s) as n eqn:En. revert s x r En.
  induction n as [n IH] using lt_wf_ind. intros s x r En H. subst n.
  assert (Hrec : forall c t, (length t < length s)%nat ->
            cons_char c (scanstring t) = Some (x, r) -> (length r < length s)%nat).
  { intros c t Ht Hc. destruct (scanstring t) as [[x' r']|] eqn:E; [|discriminate].
    simpl in Hc. inversion Hc; subst.
    pose proof (IH _ Ht t x' r eq_refl E). lia. }
  destruct s as [|c t]; [discriminate|]. simpl in H. simpl length in *.
  destruct (c =? 34); [inversion H; subst; lia|].
  destruct (c =? 92).
  - destruct t as [|e t1]; [discriminate|].
    destruct (e =? 117).
    + destruct t1 as [|h1 [|h2 [|h3 [|h4 t5]]]]; try discriminate.
      destruct (hex4 h1 h2 h3 h4) as [u|]; [|discriminate].
      destruct t5 as [|b [|e' [|g1 [|g2 [|g3 [|g4 t11]]]]]];
        try (apply (Hrec u _) in H; [exact H|simpl; lia]).
      destruct (is_high_surrogate u && (b =? 92) && (e' =? 117)).
      * destruct (hex4 g1 g2 g3 g4) as [u2|]; [|discriminate].
        destruct (is_low_surrogate u2).
        -- apply (Hrec _ _) in H; [exact H|simpl; lia].
        -- apply (Hrec _ _) in H; [exact H|simpl; lia].
      * apply (Hrec _ _) in H; [exact H|simpl; lia].
    + destruct (backslash_char e) as [y|]; [|discriminate].
      apply (Hrec _ _) in H; [exact H|simpl; lia].
  - destruct (c <? 32); [discriminate|].
    apply (Hrec _ _) in H; [exact H|simpl; lia].
Qed.

Lemma strip_prefix_length (lit s r : str) :
  strip_prefix lit s = Some r -> (length r + length lit = length s)%nat.
Proof.
  revert s. induction lit as [|a lit IH]; intros [|b s] H; simpl in *;
    try discriminate; try (inversion H; subst; simpl; lia).
  destruct (b =? a); [|discriminate]. pose proof (IH s H). lia.
Qed.

Lemma scan_number_length (s : str) (v : json) (r : str) :
  scan_number s = Some (v, r) -> (length r < length s)%nat.
Proof.
  unfold scan_number. destruct (match_number s) as [[[[i f] e] r']|] eqn:E; [|discriminate].
  destruct (match_number_spec s i f e r' E) as [Hs _].
  destruct (match_number_head s i f e r' E) as (c & t & Hc & _).
  assert (Hi : (1 <= length i)%nat).
  { unfold match_number in E. destruct (match_integer s) as [[i' r0]|] eqn:Ei; [|discriminate].
    destruct (match_integer_spec s i' r0 Ei) as (_ & (c' & t' & -> & _) & _).
    destruct (match_frac r0) as [f' r1]. destruct (match_exp r1) as [e' r2].
    inversion E; subst. simpl. lia. }
  intros H. assert (r = r') by (destruct f, e; inversion H; reflexivity). subst r'.
  rewrite Hs. rewrite !length_app. lia.
Qed.

Lemma scan_constant_length (lit : str) (c v : json) (s r : str) :
  (1 <= length lit)%nat ->
  scan_constant lit c s = Some (v, r) -> (length r < length s)%nat.
Proof.
  unfold scan_constant. intros Hl H. destruct (strip_prefix lit s) as [r'|] eqn:E; inversion H; subst.
  pose proof (strip_prefix_length _ _ _ E). lia.
Qed.

Lemma scan_length (fuel : nat) :
  (forall s v r, scan_once fuel s = Some (v, r) -> (length r < length s)%nat)
  /\ (forall s vs r, parse_array fuel s = Some (vs, r) -> (length r < length s)%nat)
  /\ (forall s ps r, parse_object fuel s = Some (ps, r) -> (length r < length s)%nat).
Proof.
  induction fuel as [|fuel (IHs & IHa & IHo)]; [repeat split; intros; discriminate|].
  repeat split.
  - intros [|c t] v r H; [discriminate|]. cbn [scan_once] in H.
    pose proof (skip_ws_length t) as Hws.
    destruct (c =? 34).
    { destruct (scanstring t) as [[x r']|] eqn:E; inversion H; subst.
      pose proof (scanstring_length _ _ _ E). simpl. lia. }
    destruct (c =? 123).
    { destruct (skip_ws t) as [|c' t']; [discriminate|].
      destruct (c' =? 125); [inversion H; subst; simpl in *; lia|].
      destruct (parse_object fuel (c' :: t')) as [[ps r']|] eqn:E; inversion H; subst.
      pose proof (IHo _ _ _ E). simpl in *. lia. }
    destruct (c =? 91).
    { destruct (skip_ws t) as [|c' t']; [discriminate|].
      destruct (c' =? 93); [inversion H; subst; simpl in *; lia|].
      destruct (parse_array fuel (c' :: t')) as [[vs r']|] eqn:E; inversion H; subst.
      pose proof (IHa _ _ _ E). simpl in *. lia. }
    destruct (c =? 110); [eapply scan_constant_length; [|exact H]; simpl; lia|].
    destruct (c =? 116); [eapply scan_constant_length; [|exact H]; simpl; lia|].
    destruct (c =? 102); [eapply scan_constant_length; [|exact H]; simpl; lia|].
    destruct (c =? 78); [eapply scan_constant_length; [|exact H]; simpl; lia|].
    destruct (c =? 73); [eapply scan_constant_length; [|exact H]; simpl; lia|].
    destruct (if c =? 45 then _ else _) as [r'|] eqn:E.
    { inversion H; subst. destruct (c =? 45); [|discriminate].
      pose proof (strip_prefix_length _ _ _ E). simpl in *. lia. }
    exact (scan_number_length _ _ _ H).
  - intros s vs r H. cbn [parse_array] in H.
    destruct (scan_once fuel s) as [[v r1]|] eqn:E; [|discriminate].
    pose proof (IHs _ _ _ E) as Hv. pose proof (skip_ws_length r1) as Hws.
    destruct (skip_ws r1) as [|c t]; [discriminate|].
    destruct (c =? 93); [inversion H; subst; simpl in *; lia|].
    destruct (c =? 44); [|discriminate].
    destruct (parse_array fuel (skip_ws t)) as [[vs' r']|] eqn:E'; inversion H; subst.
    pose proof (IHa _ _ _ E'). pose proof (skip_ws_length t). simpl in *. lia.
  - intros [|q t] ps r H; [discriminate|]. cbn [parse_object] in H.
    destruct (q =? 34); [|discriminate].
    destruct (scanstring t) as [[k r0]|] eqn:Ek; [|discriminate].
    pose proof (scanstring_length _ _ _ Ek). pose proof (skip_ws_length r0).
    destruct (skip_ws r0) as [|c t1]; [discriminate|].
    destruct (c =? 58); [|discriminate].
    destruct (scan_once fuel (skip_ws t1)) as [[v r1]|] eqn:E; [|discriminate].
    pose proof (IHs _ _ _ E) as Hv. pose proof (skip_ws_length t1).
    pose proof (skip_ws_length r1).
    destruct (skip_ws r1) as [|c' t2]; [discriminate|].
    destruct (c' =? 125); [inversion H; subst; simpl in *; lia|].
    destruct (c' =? 44); [|discriminate].
    destruct (parse_object fuel (skip_ws t2)) as [[ps' r']|] eqn:E'; inversion H; subst.
    pose proof (IHo _ _ _ E'). pose proof (skip_ws_length t2). simpl in *. lia.
Qed.

Lemma scan_once_nil (fuel : nat) : scan_once fuel [] = None.
Proof. destruct fuel; reflexivity. Qed.

Lemma fuel_stable (n : nat) :
  forall s, (length s <= n)%nat ->
    (forall f g, (2 * n <= f)%nat -> (2 * n <= g)%nat -> scan_once f s = scan_once g s)
    /\ (forall f g, (2 * n + 1 <= f)%nat -> (2 * n + 1 <= g)%nat ->
          parse_array f s = parse_array g s /\ parse_object f s = parse_object g s).
Proof.
  induction n as [n IH] using lt_wf_ind. intros s Hs.
  assert (Hscan : forall f g, (2 * n <= f)%nat -> (2 * n <= g)%nat ->
                    scan_once f s = scan_once g s).
  { intros f g Hf Hg. destruct s as [|c t]; [rewrite !scan_once_nil; reflexivity|].
    simpl in Hs. destruct f as [|f]; [lia|]. destruct g as [|g]; [lia|].
    cbn [scan_once]. pose proof (skip_ws_length t) as Hws.
    destruct (skip_ws t) as [|c' t'] eqn:E; [reflexivity|].
    destruct (IH (n - 1)%nat ltac:(lia) (c' :: t') ltac:(simpl in *; lia)) as [_ Hp].
    destruct (Hp f g ltac:(lia) ltac:(lia)) as [-> ->]. reflexivity. }
  split; [exact Hscan|].
  intros f g Hf Hg. destruct f as [|f]; [lia|]. destruct g as [|g]; [lia|]. split.
  - cbn [parse_array]. rewrite (Hscan f g) by lia.
    destruct (scan_once g s) as [[v r1]|] eqn:E; [|reflexivity].
    pose proof (proj1 (scan_length g) _ _ _ E) as Hr. pose proof (skip_ws_length r1) as Hws.
    destruct (skip_ws r1) as [|c t]; [reflexivity|]. simpl in Hws.
    pose proof (skip_ws_length t) as Hws'.
    destruct (IH (n - 2)%nat ltac:(lia) (skip_ws t) ltac:(lia)) as [_ Hp].
    destruct (Hp f g ltac:(lia) ltac:(lia)) as [-> _]. reflexivity.
  - destruct s as [|q t]; [reflexivity|]. cbn [parse_object]. simpl in Hs.
    destruct (q =? 34); [|reflexivity].
    destruct (scanstring t) as [[k r0]|] eqn:Ek; [|reflexivity].
    pose proof (scanstring_length _ _ _ Ek) as Hk. pose proof (skip_ws_length r0) as Hw0.
    destruct (skip_ws r0) as [|c t1]; [reflexivity|]. simpl in Hw0.
    destruct (c =? 58); [|reflexivity].
    pose proof (skip_ws_length t1) as Hw1.
    destruct (IH (n - 2)%nat ltac:(lia) (skip_ws t1) ltac:(lia)) as [Hv _].
    rewrite (Hv f g) by lia.
    destruct (scan_once g (skip_ws t1)) as [[v r1]|] eqn:E; [|reflexivity].
    pose proof (proj1 (scan_length g) _ _ _ E) as Hr. pose proof (skip_ws_length r1) as Hw2.
    destruct (skip_ws r1) as [|c' t2]; [reflexivity|]. simpl in Hw2.
    pose proof (skip_ws_length t2) as Hw3.
    destruct (IH (n - 4)%nat ltac:(lia) (skip_ws t2) ltac:(lia)) as [_ Hp].
    destruct (Hp f g ltac:(lia) ltac:(lia)) as [_ ->]. reflexivity.
Qed.

(** The bound [json_loads] puts on the depth of the calls is never reached:
    more would read the same. *)
Lemma scan_once_enough (s : str) (fuel : nat) :
  (2 * length s <= fuel)%nat -> scan_once fuel s = scan_once (2 * length s) s.
Proof.
  intros H. apply (proj1 (fuel_stable (length s) s (Nat.le_refl _))); lia.
Qed.

Lemma json_loads_enough (s : str) (fuel : nat) :
  (2 * length s + 2 <= fuel)%nat ->
  scan_once fuel (skip_ws s) = scan_once (2 * length s + 2) (skip_ws s).
Proof.
  intros H. pose proof (skip_ws_length s).
  rewrite (scan_once_enough (skip_ws s) fuel) by lia.
  rewrite (scan_once_enough (skip_ws s) (2 * length s + 2)) by lia. reflexivity.
Qed.

(** ** The file system and the tools *)

Lemma json_dump_to_spec (path : str) (obj : json) (fs fs' : filesystem) (e : option exn) :
  json_dump_to path obj fs = (fs', e) ->
  (e = None /\ encodable (json_dumps obj) = true
   /\ fs' = <[path := Text (json_dumps obj)]> fs)
  \/ (e = Some UnicodeEncodeError /\ encodable (json_dumps obj) = false
      /\ fs' = <[path := Torn]> fs).
Proof.
  unfold json_dump_to. destruct (encodable (json_dumps obj)); intros H; inversion H; auto.
Qed.

Lemma eq_str_spec (v : json) (s : str) : eq_str v s = true <-> v = JStr s.
Proof.
  destruct v; simpl; try (split; [discriminate|intros H; discriminate]).
  rewrite str_eqb_eq. split; [intros ->; reflexivity|intros H; inversion H; reflexivity].
Qed.

Lemma has_pair_code (t q : str) (d : list (str * json)) :
  eq_str (dict_get_default d (py "topic_id")) t
  && eq_str (dict_get_default d (py "question_id")) q
  = has_pair t q (JObj d).
Proof.
  unfold has_pair, pair_of.
  destruct (dict_get_default d _) as [| | | |a| |]; try reflexivity.
  destruct (dict_get_default d _) as [| | | |b| |]; simpl; try apply andb_false_r.
  reflexivity.
Qed.

Lemma has_pair_true (t q : str) (rec : json) :
  has_pair t q rec = true <-> pair_of rec = (JStr t, JStr q).
Proof.
  unfold has_pair. destruct (pair_of rec) as [a b].
  destruct a as [| | | |a| |]; try (split; [discriminate|intros H; inversion H]).
  destruct b as [| | | |b| |]; try (split; [discriminate|intros H; inversion H]).
  rewrite andb_true_iff, !str_eqb_eq. split.
  - intros [-> ->]. reflexivity.
  - intros H. inversion H. auto.
Qed.

Lemma find_from_first_match (t q : str) (recs : list json) (k : nat) (idx : option nat) :
  find_from t q k recs = inr idx ->
  idx = option_map (fun i => (k + i)%nat) (first_match t q recs).
Proof.
  revert k. induction recs as [|rec recs IH]; intros k H; simpl in H.
  - inversion H. reflexivity.
  - destruct rec as [| | | | | |d]; try discriminate.
    rewrite has_pair_code in H. simpl. destruct (has_pair t q (JObj d)).
    + inversion H. simpl. f_equal. lia.
    + rewrite (IH _ H). destruct (first_match t q recs); simpl; [f_equal; lia|reflexivity].
Qed.

Lemma first_match_Some (t q : str) (recs : list json) (i : nat) :
  first_match t q recs = Some i ->
  exists rec, recs !! i = Some rec /\ pair_of rec = (JStr t, JStr q)
    /\ forall j rec', (j < i)%nat -> recs !! j = Some rec' -> has_pair t q rec' = false.
Proof.
  revert i. induction recs as [|rec recs IH]; intros i H; simpl in H; [discriminate|].
  destruct (has_pair t q rec) eqn:E.
  - inversion H; subst. exists rec. split; [reflexivity|]. split; [apply has_pair_true; exact E|].
    intros j rec' Hj. lia.
  - destruct (first_match t q recs) as [i'|]; [|discriminate]. inversion H; subst.
    destruct (IH i' eq_refl) as (rec0 & Hl & Hp & Hbefore).
    exists rec0. split; [exact Hl|]. split; [exact Hp|].
    intros [|j] rec' Hj Hl'; simpl in Hl'.
    + inversion Hl'; subst. exact E.
    + apply (Hbefore j rec'); [lia|exact Hl'].
Qed.

Lemma first_match_None (t q : str) (recs : list json) :
  first_match t q recs = None -> Forall (fun rec => has_pair t q rec = false) recs.
Proof.
  induction recs as [|rec recs IH]; simpl; intros H; [constructor|].
  destruct (has_pair t q rec) eqn:E; [discriminate|].
  destruct (first_match t q recs); [discriminate|]. constructor; auto.
Qed.

Lemma pair_of_make_record (t q o : str) (fu : option str) (c r : json) :
  pair_of (make_record t q o fu c r) = (JStr t, JStr q).
Proof. reflexivity. Qed.

Lemma NoDup_pairs_put (t q : str) (recs : list json) (rec : json) :
  pair_of rec = (JStr t, JStr q) ->
  NoDup (List.map pair_of recs) ->
  NoDup (List.map pair_of (put recs (first_match t q recs) rec)).
Proof.
  intros Hrec Hnd. unfold put. destruct (first_match t q recs) as [i|] eqn:E.
  - destruct (first_match_Some t q recs i E) as (rec0 & Hl & Hp & _).
    replace (List.map pair_of (<[i:=rec]> recs)) with (List.map pair_of recs); [exact Hnd|].
    change (List.map pair_of) with (fmap (M:=list) pair_of).
    rewrite list_fmap_insert, Hrec, <- Hp. symmetry. apply list_insert_id.
    rewrite list_lookup_fmap, Hl. reflexivity.
  - pose proof (first_match_None t q recs E) as Hnone.
    rewrite map_app. simpl. apply NoDup_app. repeat split; [exact Hnd| |apply NoDup_singleton].
    intros x Hx Hx'. apply list_elem_of_singleton in Hx'. subst x.
    apply list_elem_of_In, in_map_iff in Hx as (rec' & Hp & Hin).
    rewrite Hrec in *. apply has_pair_true in Hp.
    rewrite List.Forall_forall in Hnone. rewrite (Hnone rec' Hin) in Hp. discriminate.
Qed.

Lemma dict_get_set_eq (k : str) (v : json) (d : list (str * json)) :
  dict_get k (dict_set k v d) = Some v.
Proof.
  induction d as [|[k' v'] d IH]; simpl; [rewrite str_eqb_refl; reflexivity|].
  destruct (str_eqb k' k) eqn:E; simpl.
  - rewrite str_eqb_refl. reflexivity.
  - rewrite E. exact IH.
Qed.

Lemma dict_get_set_neq (k k' : str) (v : json) (d : list (str * json)) :
  k' <> k -> dict_get k' (dict_set k v d) = dict_get k' d.
Proof.
  intros Hk. induction d as [|[k0 v0] d IH]; simpl.
  - apply str_eqb_neq in Hk. destruct (str_eqb k k') eqn:E; [|reflexivity].
    apply str_eqb_eq in E. subst. rewrite str_eqb_refl in Hk. discriminate.
  - destruct (str_eqb k0 k) eqn:E; simpl.
    + apply str_eqb_eq in E. subst k0.
      destruct (str_eqb k k') eqn:E'; [|reflexivity].
      apply str_eqb_eq in E'. congruence.
    + rewrite IH. reflexivity.
Qed.

Lemma dict_get_In (k : str) (v : json) (d : list (str * json)) :
  dict_get k d = Some v -> In k (keys d).
Proof.
  intros H. destruct (In_keys_dec k d) as [Hin|Hin]; [exact Hin|].
  apply dict_get_None in Hin. congruence.
Qed.

Lemma merge_record_spec (session session' : json) (t q : str) (rec : json) :
  merge_record session t q rec = inr session' ->
  exists d recs,
    session = JObj d /\ dict_get (py "answers") d = Some (JArr recs)
    /\ session' = JObj (dict_set (py "answers") (JArr (put recs (first_match t q recs) rec)) d).
Proof.
  unfold merge_record, getitem. intros H.
  destruct session as [| | | | | |d]; try discriminate.
  destruct (dict_get _ d) as [answers|] eqn:Ea; [|discriminate].
  destruct (find_idx t q answers) as [e|idx] eqn:Ef; [discriminate|].
  destruct answers as [| | | | |recs|]; simpl in H; try discriminate.
  simpl in Ef. apply find_from_first_match in Ef. simpl in Ef.
  assert (Hidx : idx = first_match t q recs).
  { rewrite Ef. destruct (first_match t q recs); reflexivity. }
  clear Ef. subst idx. exists d, recs. split; [reflexivity|]. split; [exact Ea|].
  unfold put. destruct (first_match t q recs); inversion H; reflexivity.
Qed.

Lemma answers_of_merged (d : list (str * json)) (recs : list json) :
  answers_of (JObj (dict_set (py "answers") (JArr recs) d)) = recs.
Proof. unfold answers_of, getitem. rewrite dict_get_set_eq. reflexivity. Qed.

Lemma update_success (path t q o : str) (fu : option str) (c r : json)
    (fs fs' : filesystem) (res : result) :
  update_session_append_answer path t q o fu c r fs = (fs', res) ->
  status res = py "success" ->
  exists session session',
    load_session path fs = inr session
    /\ merge_record session t q (make_record t q o fu c r) = inr session'
    /\ res = mkResult (py "success") (Some session') None None
    /\ encodable (json_dumps session') = true
    /\ fs' = <[path := Text (json_dumps session')]> fs.
Proof.
  unfold update_session_append_answer. intros H Hs.
  destruct (load_session path fs) as [e|session] eqn:El; [inversion H; subst; discriminate|].
  destruct (merge_record _ _ _ _) as [e|session'] eqn:Em; [inversion H; subst; discriminate|].
  destruct (json_dump_to path session' fs) as [fs1 [e|]] eqn:Ed;
    [inversion H; subst; discriminate|].
  inversion H; subst.
  destruct (json_dump_to_spec _ _ _ _ _ Ed) as [(_ & He & ->)|(Hn & _)]; [|discriminate].
  exists session, session'. repeat split; auto.
Qed.

Lemma update_not_success (path t q o : str) (fu : option str) (c r : json)
    (fs fs' : filesystem) (res : result) :
  update_session_append_answer path t q o fu c r fs = (fs', res) ->
  status res <> py "success" ->
  data res = None /\ (fs' = fs \/ fs' = <[path := Torn]> fs).
Proof.
  unfold update_session_append_answer. intros H Hs.
  destruct (load_session path fs) as [e|session]; [inversion H; subst; auto|].
  destruct (merge_record _ _ _ _) as [e|session']; [inversion H; subst; auto|].
  destruct (json_dump_to path session' fs) as [fs1 [e|]] eqn:Ed; inversion H; subst.
  - destruct (json_dump_to_spec _ _ _ _ _ Ed) as [(Hn & _)|(_ & _ & ->)]; [discriminate|auto].
  - exfalso. apply Hs. reflexivity.
Qed.

(** ** Merging *)

Lemma put_lookup (recs : list json) (t q : str) (rec : json) :
  exists i, put recs (first_match t q recs) rec !! i = Some rec.
Proof.
  unfold put. destruct (first_match t q recs) as [i|] eqn:E.
  - destruct (first_match_Some t q recs i E) as (rec0 & Hl & _).
    exists i. apply list_lookup_insert_eq. apply lookup_lt_Some in Hl. exact Hl.
  - exists (length recs). rewrite lookup_app_r by lia. rewrite Nat.sub_diag. reflexivity.
Qed.

(** A merge that succeeds returns the session with the record in it, and the
    session file holds the rendered session. *)
Lemma update_stores (path t q o : str) (fu : option str) (c r : json)
    (fs fs' : filesystem) (res : result) :
  update_session_append_answer path t q o fu c r fs = (fs', res) ->
  status res = py "success" ->
  exists session i,
    data res = Some session
    /\ fs' !! path = Some (Text (json_dumps session))
    /\ answers_of session !! i = Some (make_record t q o fu c r).
Proof.
  intros H Hs.
  destruct (update_success _ _ _ _ _ _ _ _ _ _ H Hs) as (s0 & s1 & _ & Hm & -> & _ & ->).
  destruct (merge_record_spec _ _ _ _ _ Hm) as (d & recs & -> & Ha & ->).
  destruct (put_lookup recs t q (make_record t q o fu c r)) as [i Hi].
  eexists _, i. split; [reflexivity|]. split; [apply lookup_insert_eq|].
  rewrite answers_of_merged. exact Hi.
Qed.
Lemma merge_record_new_session (t q : str) (rec : json) :
  merge_record new_session t q rec = inr (first_session rec).
Proof. reflexivity. Qed.

Lemma update_new_session (path t q o : str) (fu : option str) (c r : json)
    (fs : filesystem) :
  fs !! path = None ->
  update_session_append_answer path t q o fu c r fs
  = let session := first_session (make_record t q o fu c r) in
    if encodable (json_dumps session)
    then (<[path := Text (json_dumps session)]> fs,
          mkResult (py "success") (Some session) None None)
    else (<[path := Torn]> fs, error_result UnicodeEncodeError).
Proof.
  intros H. unfold update_session_append_answer, load_session. rewrite H.
  rewrite merge_record_new_session. unfold json_dump_to. cbv zeta.
  destruct (encodable _); reflexivity.
Qed.
(** ** Merging keeps objects well formed *)

Lemma wf_make_record (t q o : str) (fu : option str) (c r : json) :
  wf c = true -> wf r = true -> wf (make_record t q o fu c r) = true.
Proof.
  intros Hc Hr. unfold make_record. cbn [wf forallb snd]. rewrite Hc, Hr.
  destruct fu; reflexivity.
Qed.

Lemma wf_dict_get (k : str) (v : json) (d : list (str * json)) :
  forallb (fun kv => wf (snd kv)) d = true -> dict_get k d = Some v -> wf v = true.
Proof.
  induction d as [|[k' v'] d IH]; simpl; intros H Hg; [discriminate|].
  apply andb_prop in H as [H1 H2]. destruct (str_eqb k' k); [inversion Hg; subst; exact H1|].
  exact (IH H2 Hg).
Qed.

Lemma wf_put (recs : list json) (idx : option nat) (rec : json) :
  forallb wf recs = true -> wf rec = true -> forallb wf (put recs idx rec) = true.
Proof.
  intros Hrecs Hrec. unfold put. destruct idx as [i|].
  - revert i. induction recs as [|x recs IH]; intros i; [reflexivity|].
    simpl in Hrecs. apply andb_prop in Hrecs as [Hx Hrecs].
    destruct i as [|i]; simpl.
    + rewrite Hrec, Hrecs. reflexivity.
    + rewrite Hx. exact (IH Hrecs i).
  - rewrite forallb_app, Hrecs. simpl. rewrite Hrec. reflexivity.
Qed.

Lemma wf_merge_record (session session' : json) (t q : str) (rec : json) :
  wf session = true -> wf rec = true ->
  merge_record session t q rec = inr session' -> wf session' = true.
Proof.
  intros Hs Hrec Hm.
  destruct (merge_record_spec _ _ _ _ _ Hm) as (d & recs & -> & Ha & ->).
  destruct (wf_obj d Hs) as [Hnd Hall].
  assert (Hd : forallb (fun kv => wf (snd kv)) d = true).
  { apply forallb_forall. intros x Hx. rewrite List.Forall_forall in Hall. exact (Hall x Hx). }
  pose proof (wf_dict_get _ _ _ Hd Ha) as Hrecs.
  cbn [wf]. apply andb_true_intro. split.
  - apply bool_decide_eq_true. apply NoDup_keys_dict_set. exact Hnd.
  - apply forallb_dict_set; [|exact Hd]. cbn [wf]. apply wf_put; assumption.
Qed.

Lemma load_session_wf (path : str) (fs : filesystem) (session : json) :
  load_session path fs = inr session -> wf session = true.
Proof.
  unfold load_session, json_load. destruct (fs !! path) as [[t|]|].
  - destruct (json_loads t) as [v|] eqn:E; intros H; inversion H; subst.
    exact (json_loads_wf t session E).
  - discriminate.
  - intros H. inversion H. reflexivity.
Qed.

Lemma load_session_stored (path : str) (fs : filesystem) (session : json) :
  load_session path fs = inr session ->
  (fs !! path = None /\ session = new_session) \/ stored_session fs path = Some session.
Proof.
  unfold load_session, stored_session, json_load. destruct (fs !! path) as [[t|]|].
  - destruct (json_loads t) as [v|]; intros H; inversion H; subst. right. reflexivity.
  - discriminate.
  - intros H. inversion H. left. auto.
Qed.

(** What a merge that succeeds leaves in the session file is read back as the
    session it returns. *)
Lemma update_success_stored (path t q o : str) (fu : option str) (c r : json)
    (fs fs' : filesystem) (res : result) :
  wf c = true -> wf r = true ->
  update_session_append_answer path t q o fu c r fs = (fs', res) ->
  status res = py "success" ->
  exists session d recs,
    load_session path fs = inr session
    /\ session = JObj d /\ dict_get (py "answers") d = Some (JArr recs)
    /\ let session' :=
         JObj (dict_set (py "answers")
                 (JArr (put recs (first_match t q recs) (make_record t q o fu c r))) d) in
       res = mkResult (py "success") (Some session') None None
       /\ stored_session fs' path = Some session'.
Proof.
  intros Hc Hr H Hs.
  destruct (update_success _ _ _ _ _ _ _ _ _ _ H Hs) as (s0 & s1 & Hl & Hm & -> & _ & ->).
  pose proof (wf_merge_record _ _ _ _ _ (load_session_wf _ _ _ Hl)
                (wf_make_record t q o fu c r Hc Hr) Hm) as Hwf.
  destruct (merge_record_spec _ _ _ _ _ Hm) as (d & recs & -> & Ha & ->).
  exists (JObj d), d, recs. repeat split; try assumption.
  unfold stored_session. rewrite lookup_insert_eq. apply json_loads_dumps. exact Hwf.
Qed.
(** ** No two records with one pair *)

Lemma merge_step (path : str) (c : merge_call) (fs fs' : filesystem) (res : result) :
  wf_call c ->
  file_distinct fs path ->
  merge path c fs = (fs', res) ->
  file_distinct fs' path
  /\ (forall session, data res = Some session -> distinct_pairs session).
Proof.
  intros [Hc Hr] Hinv H. unfold merge in H.
  destruct (decide (status res = py "success")) as [Hs|Hs].
  - destruct (update_success_stored _ _ _ _ _ _ _ _ _ _ Hc Hr H Hs)
      as (s0 & d & recs & Hl & -> & Ha & -> & Hst).
    assert (Hrecs : NoDup (List.map pair_of recs)).
    { destruct (load_session_stored _ _ _ Hl) as [[_ Hn]|Hstored].
      - unfold new_session in Hn. inversion Hn; subst. vm_compute in Ha.
        inversion Ha; subst. constructor.
      - pose proof (Hinv _ Hstored) as Hd. unfold distinct_pairs, answers_of, getitem in Hd.
        rewrite Ha in Hd. exact Hd. }
    assert (Hnew : distinct_pairs
              (JObj (dict_set (py "answers")
                 (JArr (put recs (first_match (call_topic c) (call_question c) recs)
                          (make_record (call_topic c) (call_question c) (call_original c)
                             (call_followup c) (call_completeness c) (call_rating c)))) d))).
    { unfold distinct_pairs. rewrite answers_of_merged.
      apply NoDup_pairs_put; [apply pair_of_make_record|exact Hrecs]. }
    split.
    + intros session Hsess. rewrite Hst in Hsess. inversion Hsess; subst. exact Hnew.
    + intros session Hsess. simpl in Hsess. inversion Hsess; subst. exact Hnew.
  - destruct (update_not_success _ _ _ _ _ _ _ _ _ _ H Hs) as [Hd [-> | ->]].
    + split; [exact Hinv|]. intros session Hsess. congruence.
    + split; [|intros session Hsess; congruence].
      intros session Hsess. unfold stored_session in Hsess.
      rewrite lookup_insert_eq in Hsess. discriminate.
Qed.

Lemma merges_distinct (path : str) (calls : list merge_call) (fs : filesystem) :
  Forall wf_call calls ->
  file_distinct fs path ->
  file_distinct (fst (merges path calls fs)) path
  /\ Forall (fun res => forall session, data res = Some session -> distinct_pairs session)
       (snd (merges path calls fs)).
Proof.
  intros Hcalls. revert fs. induction Hcalls as [|c calls Hc Hcalls IH]; intros fs Hinv.
  - simpl. split; [exact Hinv|constructor].
  - simpl. destruct (merge path c fs) as [fs1 r] eqn:E1.
    destruct (merge_step path c fs fs1 r Hc Hinv E1) as [Hinv1 Hr].
    destruct (IH fs1 Hinv1) as [Hinv2 Hrs].
    destruct (merges path calls fs1) as [fs2 rs]. simpl in *.
    split; [exact Hinv2|]. constructor; assumption.
Qed.
(** ** The server *)

Import Server.

Lemma registered_In (name : str) : registered name = true <-> In name agents.
Proof.
  unfold registered. rewrite existsb_exists. split.
  - intros (x & Hx & E). apply str_eqb_eq in E. subst. exact Hx.
  - intros H. exists name. split; [exact H|apply str_eqb_refl].
Qed.

(** ** Stripping *)

Lemma lstrip_blank (s : str) : blank s = true -> lstrip s = [].
Proof.
  induction s as [|c s IH]; simpl; [reflexivity|].
  intros H. apply andb_prop in H as [Hc Hs]. rewrite Hc. exact (IH Hs).
Qed.

Lemma lstrip_blank_app (s x : str) : blank s = true -> lstrip (s ++ x) = lstrip x.
Proof.
  induction s as [|c s IH]; simpl; [reflexivity|].
  intros H. apply andb_prop in H as [Hc Hs]. rewrite Hc. exact (IH Hs).
Qed.

Lemma lstrip_app (s x : str) : blank s = false -> lstrip (s ++ x) = lstrip s ++ x.
Proof.
  induction s as [|c s IH]; simpl; [discriminate|].
  destruct (is_space c); simpl; [exact IH|reflexivity].
Qed.

Lemma blank_app (s x : str) : blank (s ++ x) = blank s && blank x.
Proof. apply forallb_app. Qed.

Lemma blank_rev (s : str) : blank (rev s) = blank s.
Proof.
  induction s as [|c s IH]; simpl; [reflexivity|].
  rewrite blank_app, IH. simpl. rewrite andb_true_r. apply andb_comm.
Qed.

Lemma blank_lstrip (s : str) : blank (lstrip s) = blank s.
Proof.
  induction s as [|c s IH]; simpl; [reflexivity|].
  destruct (is_space c) eqn:E; simpl; [exact IH|rewrite E; reflexivity].
Qed.

Lemma rstrip_app_blank (x s : str) : blank s = true -> rstrip (x ++ s) = rstrip x.
Proof.
  intros H. unfold rstrip. rewrite rev_app_distr, lstrip_blank_app; [reflexivity|].
  rewrite blank_rev. exact H.
Qed.

Lemma rstrip_app (x s : str) : blank s = false -> rstrip (x ++ s) = x ++ rstrip s.
Proof.
  intros H. unfold rstrip. rewrite rev_app_distr, lstrip_app by (rewrite blank_rev; exact H).
  rewrite rev_app_distr, rev_involutive. reflexivity.
Qed.

Lemma lstrip_head (s : str) (c : char) (rest : str) :
  lstrip s = c :: rest -> is_space c = false.
Proof.
  induction s as [|a s IH]; simpl; [discriminate|].
  destruct (is_space a) eqn:E; [exact IH|]. intros H. inversion H; subst. exact E.
Qed.

Lemma lstrip_id (s : str) :
  match s with c :: _ => is_space c = false | [] => True end -> lstrip s = s.
Proof. destruct s as [|c s]; simpl; [reflexivity|]. intros ->. reflexivity. Qed.

Lemma rstrip_last (s front : str) (c : char) :
  rstrip s = front ++ [c] -> is_space c = false.
Proof.
  unfold rstrip. intros H. apply (f_equal (@rev _)) in H.
  rewrite rev_involutive, rev_app_distr in H. simpl in H.
  exact (lstrip_head _ _ _ H).
Qed.

(** What [lstrip] and [rstrip] remove is whitespace. *)
Lemma lstrip_prefix (s : str) : exists w, s = w ++ lstrip s /\ blank w = true.
Proof.
  induction s as [|c r IH]; simpl; [exists []; auto|].
  destruct (is_space c) eqn:E.
  - destruct IH as (w & Hw & Hb). exists (c :: w). simpl. rewrite E, Hb.
    split; [congruence|reflexivity].
  - exists []. auto.
Qed.

Lemma rstrip_suffix (s : str) : exists w, s = rstrip s ++ w /\ blank w = true.
Proof.
  unfold rstrip. destruct (lstrip_prefix (rev s)) as (w & Hw & Hb). exists (rev w). split.
  - rewrite <- rev_app_distr, <- Hw, rev_involutive. reflexivity.
  - rewrite blank_rev. exact Hb.
Qed.

Lemma rstrip_head (s : str) (c : char) (rest : str) :
  match s with a :: _ => is_space a = false | [] => True end ->
  rstrip s = c :: rest -> is_space c = false.
Proof.
  intros Hs H. destruct (rstrip_suffix s) as (w & Hw & _).
  rewrite H in Hw. subst s. simpl in Hs. exact Hs.
Qed.

Lemma strip_head (s : str) (c : char) (rest : str) :
  strip s = c :: rest -> is_space c = false.
Proof.
  unfold strip. apply rstrip_head.
  destruct (lstrip s) as [|a l] eqn:E; [exact I|]. exact (lstrip_head _ _ _ E).
Qed.

Lemma strip_last (s front : str) (c : char) :
  strip s = front ++ [c] -> is_space c = false.
Proof. unfold strip. apply rstrip_last. Qed.

Lemma rstrip_id (s : str) :
  (forall front c, s = front ++ [c] -> is_space c = false) -> rstrip s = s.
Proof.
  intros H. unfold rstrip. destruct (rev s) as [|c r] eqn:E.
  - apply (f_equal (@rev _)) in E. rewrite rev_involutive in E. subst. reflexivity.
  - assert (Hs : s = rev r ++ [c]).
    { apply (f_equal (@rev _)) in E. rewrite rev_involutive in E. exact E. }
    simpl. rewrite (H _ _ Hs). simpl. symmetry. exact Hs.
Qed.

Lemma strip_strip (s : str) : strip (strip s) = strip s.
Proof.
  unfold strip at 1. rewrite lstrip_id.
  - apply rstrip_id. apply strip_last.
  - destruct (strip s) as [|c r] eqn:E; [exact I|]. exact (strip_head _ _ _ E).
Qed.

Lemma strip_app_blank (s w : str) : blank w = true -> strip (s ++ w) = strip s.
Proof.
  intros Hw. unfold strip. destruct (blank s) eqn:Hs.
  - rewrite lstrip_blank_app by exact Hs. rewrite (lstrip_blank w Hw), (lstrip_blank s Hs).
    reflexivity.
  - rewrite lstrip_app by exact Hs. apply rstrip_app_blank. exact Hw.
Qed.

Lemma strip_nil_iff (s : str) : strip s = [] <-> blank s = true.
Proof.
  unfold strip. split.
  - intros H. destruct (rstrip_suffix (lstrip s)) as (w & Hw & Hb).
    rewrite H in Hw. simpl in Hw. rewrite <- blank_lstrip, Hw. exact Hb.
  - intros H. rewrite (lstrip_blank s H). reflexivity.
Qed.

(** ** The records a merge looks at *)

Lemma examined_cons (t q : str) (rec : json) (recs : list json) :
  examined t q (rec :: recs)
  = if has_pair t q rec then [] else rec :: examined t q recs.
Proof.
  unfold examined. simpl. destruct (has_pair t q rec); [reflexivity|].
  destruct (first_match t q recs); reflexivity.
Qed.

(** [_find_idx] returns the position of the first record with the pair when
    the records it looks at are dictionaries, and raises otherwise. *)
Lemma find_from_examined (t q : str) (recs : list json) (k : nat) :
  find_from t q k recs
  = if forallb is_dict (examined t q recs)
    then inr (option_map (fun i => (k + i)%nat) (first_match t q recs))
    else inl AttributeError.
Proof.
  revert k. induction recs as [|rec recs IH]; intros k; [reflexivity|].
  rewrite examined_cons.
  destruct rec as [| | | | | |d]; try reflexivity.
  cbn [find_from first_match]. rewrite has_pair_code.
  destruct (has_pair t q (JObj d)).
  - simpl. rewrite Nat.add_0_r. reflexivity.
  - cbn [forallb is_dict andb]. rewrite IH. destruct (forallb is_dict _); [|reflexivity].
    f_equal. destruct (first_match t q recs) as [i|]; simpl; [|reflexivity].
    f_equal. lia.
Qed.

Lemma merge_record_obj (d : list (str * json)) (recs : list json) (t q : str) (rec : json) :
  dict_get (py "answers") d = Some (JArr recs) ->
  merge_record (JObj d) t q rec
  = if forallb is_dict (examined t q recs)
    then inr (JObj (dict_set (py "answers") (JArr (put recs (first_match t q recs) rec)) d))
    else inl AttributeError.
Proof.
  intros Ha. unfold merge_record, getitem. rewrite Ha. cbn [find_idx].
  rewrite find_from_examined. destruct (forallb is_dict _); [|reflexivity].
  destruct (first_match t q recs); reflexivity.
Qed.

Lemma merge_record_examined (session session' : json) (t q : str) (rec : json) :
  merge_record session t q rec = inr session' ->
  exists d recs,
    session = JObj d /\ dict_get (py "answers") d = Some (JArr recs)
    /\ forallb is_dict (examined t q recs) = true
    /\ session' = JObj (dict_set (py "answers") (JArr (put recs (first_match t q recs) rec)) d).
Proof.
  intros H. destruct (merge_record_spec _ _ _ _ _ H) as (d & recs & -> & Ha & ->).
  exists d, recs. rewrite (merge_record_obj d recs t q rec Ha) in H.
  destruct (forallb is_dict _); [|discriminate]. auto.
Qed.

(** ** Saving *)

Lemma json_dump_to_other (path p : str) (obj : json) (fs : filesystem) :
  p <> path -> fst (json_dump_to path obj fs) !! p = fs !! p.
Proof.
  intros Hp. unfold json_dump_to. destruct (encodable _); simpl;
    apply lookup_insert_ne; congruence.
Qed.

Lemma save_questions_is_save (s path : str) (fs : filesystem) :
  save_questions_to_file s path fs = save_json_file s path fs.
Proof. reflexivity. Qed.

Lemma save_success (s path : str) (fs fs' : filesystem) (res : result) :
  save_json_file s path fs = (fs', res) ->
  status res = py "success" ->
  exists v, json_loads s = Some v /\ wf v = true /\ encodable (json_dumps v) = true
            /\ fs' = <[path := Text (json_dumps v)]> fs
            /\ res = mkResult (py "success") None (Some (py "Saved to " ++ path)) None.
Proof.
  unfold save_json_file. intros H Hs.
  destruct (json_loads s) as [v|] eqn:Ev; [|injection H as <- <-; discriminate].
  destruct (json_dump_to path v fs) as [fs1 [e|]] eqn:Ed; injection H as <- <-; [discriminate|].
  destruct (json_dump_to_spec _ _ _ _ _ Ed) as [(_ & He & ->)|(Hn & _)]; [|discriminate].
  exists v. repeat split; auto. exact (json_loads_wf s v Ev).
Qed.

(** ** Putting a record and finding it *)


Lemma put_cons (t q : str) (x rec : json) (recs : list json) :
  put (x :: recs) (first_match t q (x :: recs)) rec
  = if has_pair t q x then rec :: recs else x :: put recs (first_match t q recs) rec.
Proof.
  simpl. destruct (has_pair t q x); [reflexivity|].
  destruct (first_match t q recs); reflexivity.
Qed.



Lemma first_match_put (t q : str) (recs : list json) (rec : json) :
  has_pair t q rec = true ->
  exists i, first_match t q (put recs (first_match t q recs) rec) = Some i
            /\ put recs (first_match t q recs) rec !! i = Some rec.
Proof.
  intros Hrec. induction recs as [|x recs IH].
  - exists 0%nat. simpl. rewrite Hrec. auto.
  - rewrite (put_cons t q x). destruct (has_pair t q x) eqn:E.
    + exists 0%nat. simpl. rewrite Hrec. auto.
    + destruct IH as (i & Hi & Hl). exists (S i). simpl. rewrite E, Hi. auto.
Qed.

Lemma first_match_put_other (t q t' q' : str) (recs : list json) (rec : json) :
  has_pair t q rec = true -> has_pair t' q' rec = false ->
  (forall x, has_pair t q x = true -> has_pair t' q' x = false) ->
  first_match t' q' (put recs (first_match t q recs) rec) = first_match t' q' recs
  /\ forall i, first_match t' q' recs = Some i ->
       put recs (first_match t q recs) rec !! i = recs !! i.
Proof.
  intros Hrec Hrec' Hex. induction recs as [|x recs [IH1 IH2]].
  - simpl. rewrite Hrec'. split; [reflexivity|discriminate].
  - rewrite (put_cons t q x). destruct (has_pair t q x) eqn:E.
    + simpl. rewrite Hrec', (Hex x E). split; [reflexivity|].
      intros [|i] Hi; [|reflexivity].
      destruct (first_match t' q' recs); discriminate.
    + simpl. destruct (has_pair t' q' x) eqn:E'.
      * split; [reflexivity|]. intros i Hi. inversion Hi. reflexivity.
      * rewrite IH1. split; [reflexivity|]. intros [|i] Hi; [reflexivity|].
        simpl. apply IH2. destruct (first_match t' q' recs); inversion Hi; reflexivity.
Qed.

Lemma has_pair_other (t q t' q' : str) (x : json) :
  (t', q') <> (t, q) -> has_pair t q x = true -> has_pair t' q' x = false.
Proof.
  intros Hne H. apply has_pair_true in H.
  destruct (has_pair t' q' x) eqn:E; [|reflexivity].
  apply has_pair_true in E. rewrite H in E. inversion E; subst. congruence.
Qed.

Lemma has_pair_make_record (t q o : str) (fu : option str) (c r : json) :
  has_pair t q (make_record t q o fu c r) = true.
Proof. apply has_pair_true. reflexivity. Qed.

Lemma record_for_merged (t q : str) (d : list (str * json)) (recs : list json) (rec : json) :
  has_pair t q rec = true ->
  record_for t q (JObj (dict_set (py "answers") (JArr (put recs (first_match t q recs) rec)) d))
  = Some rec.
Proof.
  intros Hrec. unfold record_for. rewrite answers_of_merged.
  destruct (first_match_put t q recs rec Hrec) as (i & -> & Hl). exact Hl.
Qed.

Lemma record_for_merged_other (t q t' q' : str) (d : list (str * json)) (recs : list json)
    (rec : json) :
  (t', q') <> (t, q) ->
  has_pair t q rec = true ->
  dict_get (py "answers") d = Some (JArr recs) ->
  record_for t' q'
    (JObj (dict_set (py "answers") (JArr (put recs (first_match t q recs) rec)) d))
  = record_for t' q' (JObj d).
Proof.
  intros Hne Hrec Ha. unfold record_for. rewrite answers_of_merged.
  unfold answers_of at 1 2, getitem. rewrite Ha.
  destruct (first_match_put_other t q t' q' recs rec Hrec
              (has_pair_other _ _ _ _ _ Hne Hrec)
              (fun x => has_pair_other _ _ _ _ x Hne)) as [-> H2].
  destruct (first_match t' q' recs) as [i|] eqn:E; [|reflexivity].
  exact (H2 i eq_refl).
Qed.

Lemma length_put (t q : str) (recs : list json) (rec : json) :
  length (put recs (first_match t q recs) rec)
  = (length recs + match first_match t q recs with Some _ => 0 | None => 1 end)%nat.
Proof.
  unfold put. destruct (first_match t q recs).
  - rewrite length_insert. lia.
  - rewrite length_app. reflexivity.
Qed.

Lemma stored_load_session (path : str) (fs : filesystem) (session : json) :
  stored_session fs path = Some session -> load_session path fs = inr session.
Proof.
  unfold stored_session, load_session, json_load.
  destruct (fs !! path) as [[x|]|]; try discriminate. intros ->. reflexivity.
Qed.

Lemma find_snoc {A : Type} (f : A -> bool) (l : list A) (x : A) :
  List.find f (l ++ [x])
  = match List.find f l with
    | Some y => Some y
    | None => if f x then Some x else None
    end.
Proof.
  induction l as [|a l IH]; simpl; [reflexivity|]. destruct (f a); [reflexivity|exact IH].
Qed.

Lemma same_pair_spec (t q : str) (c : merge_call) :
  same_pair t q c = true <-> (t, q) = (call_topic c, call_question c).
Proof.
  unfold same_pair. rewrite andb_true_iff, !str_eqb_eq. split.
  - intros [-> ->]. reflexivity.
  - intros H. inversion H. auto.
Qed.

Lemma merge_record_error (session : json) (t q : str) (rec : json) (e : exn) :
  merge_record session t q rec = inl e -> e <> UnicodeEncodeError.
Proof.
  unfold merge_record, getitem. intros H.
  destruct session as [| | | | | |d]; try (inversion H; discriminate).
  destruct (dict_get _ d) as [answers|]; [|inversion H; discriminate].
  destruct (find_idx t q answers) as [e'|idx] eqn:Ef.
  - inversion H; subst. destruct answers as [| | | |[|]|recs|[|]]; simpl in Ef;
      try (inversion Ef; discriminate).
    rewrite find_from_examined in Ef. destruct (forallb is_dict _); inversion Ef.
    discriminate.
  - destruct (put_record idx rec answers) as [e'|a] eqn:Ep; [|discriminate].
    inversion H; subst. unfold put_record in Ep.
    destruct answers; try (inversion Ep; discriminate).
    destruct idx; discriminate.
Qed.

Lemma update_torn (path t q o : str) (fu : option str) (c r : json) (fs : filesystem) :
  fs !! path = Some Torn ->
  update_session_append_answer path t q o fu c r fs = (fs, error_result JSONDecodeError).
Proof.
  intros H. unfold update_session_append_answer, load_session. rewrite H. reflexivity.
Qed.

(** ** Counting the records of a pair *)

Lemma filter_put_same (t q : str) (recs : list json) (rec : json) :
  has_pair t q rec = true ->
  length (List.filter (has_pair t q) (put recs (first_match t q recs) rec))
  = Nat.max 1 (length (List.filter (has_pair t q) recs)).
Proof.
  intros Hrec. induction recs as [|x recs IH].
  - simpl. rewrite Hrec. reflexivity.
  - rewrite put_cons. destruct (has_pair t q x) eqn:E; simpl.
    + rewrite Hrec, E. simpl. lia.
    + rewrite E. exact IH.
Qed.

Lemma filter_put_other (t q t' q' : str) (recs : list json) (rec : json) :
  (t', q') <> (t, q) ->
  has_pair t q rec = true ->
  length (List.filter (has_pair t' q') (put recs (first_match t q recs) rec))
  = length (List.filter (has_pair t' q') recs).
Proof.
  intros Hne Hrec. pose proof (has_pair_other _ _ _ _ rec Hne Hrec) as Hrec'.
  induction recs as [|x recs IH].
  - simpl. rewrite Hrec'. reflexivity.
  - rewrite put_cons. destruct (has_pair t q x) eqn:E; simpl.
    + rewrite Hrec', (has_pair_other _ _ _ _ x Hne E). reflexivity.
    + destruct (has_pair t' q' x); simpl; rewrite IH; reflexivity.
Qed.

(** * The properties of the specification *)

(** C1, as amended: the final answer of the record a successful merge stores
    is the original answer, the separator and the follow-up, stripped, when a
    follow-up that is not empty is supplied, and the original answer,
    stripped, when there is no follow-up. *)
Theorem merged_final_answer (path t q o : str) (fu : option str) (c r : json)
    (fs fs' : filesystem) (res : result) :
  update_session_append_answer path t q o fu c r fs = (fs', res) ->
  status res = py "success" ->
  exists session i rec,
    data res = Some session
    /\ fs' !! path = Some (Text (json_dumps session))
    /\ answers_of session !! i = Some rec
    /\ getitem rec (py "topic_id") = inr (JStr t)
    /\ getitem rec (py "question_id") = inr (JStr q)
    /\ (forall f, fu = Some f -> f <> [] ->
          getitem rec (py "final_answer") = inr (JStr (strip (o ++ separator ++ f))))
    /\ (fu = None ->
          getitem rec (py "final_answer") = inr (JStr (strip o))).
Proof.
  intros H Hs. destruct (update_stores _ _ _ _ _ _ _ _ _ _ H Hs) as (session & i & Hd & Hf & Hi).
  exists session, i, (make_record t q o fu c r).
  repeat split; try assumption; try reflexivity.
  - intros f -> Hne. destruct f; [congruence|reflexivity].
  - intros ->. reflexivity.
Qed.

Lemma merged_final_answer_witness :
  exists session i rec,
    data (snd (update_session_append_answer (py "s.json") (py "T1") (py "Q1") (py "A")
                 (Some (py "more")) JNull JNull ∅)) = Some session
    /\ answers_of session !! i = Some rec
    /\ getitem rec (py "final_answer")
       = inr (JStr (strip (py "A" ++ separator ++ py "more"))).
Proof.
  assert (Hs : status (snd (update_session_append_answer (py "s.json") (py "T1") (py "Q1")
                               (py "A") (Some (py "more")) JNull JNull ∅)) = py "success")
    by (vm_compute; reflexivity).
  destruct (merged_final_answer (py "s.json") (py "T1") (py "Q1") (py "A")
              (Some (py "more")) JNull JNull ∅ _ _ (surjective_pairing _) Hs)
    as (session & i & rec & Hd & _ & Hi & _ & _ & Hf & _).
  exists session, i, rec. split; [exact Hd|]. split; [exact Hi|].
  apply (Hf (py "more") eq_refl). discriminate.
Defined.

(** C1 as stated fails: without a follow-up, the final answer of the stored
    record is not the original answer [" A"] but ["A"]. *)
Lemma original_answer_not_kept :
  exists session rec,
    snd (update_session_append_answer (py "s.json") (py "T1") (py "Q1") (py " A")
           None JNull JNull ∅)
    = mkResult (py "success") (Some session) None None
    /\ answers_of session = [rec]
    /\ getitem rec (py "original_answer") = inr (JStr (py " A"))
    /\ getitem rec (py "final_answer") = inr (JStr (py "A"))
    /\ py "A" <> py " A".
Proof.
  eexists _, _. split; [vm_compute; reflexivity|].
  split; [reflexivity|]. split; [reflexivity|]. split; [reflexivity|]. discriminate.
Qed.

(** C9: with the empty string as follow-up, the record a successful merge
    stores keeps the empty string as its follow-up answer, and its final
    answer is the original answer stripped, with no separator put after it. *)
Theorem empty_followup_is_no_followup (path t q o : str) (c r : json)
    (fs fs' : filesystem) (res : result) :
  update_session_append_answer path t q o (Some []) c r fs = (fs', res) ->
  status res = py "success" ->
  exists session i rec,
    data res = Some session
    /\ fs' !! path = Some (Text (json_dumps session))
    /\ answers_of session !! i = Some rec
    /\ getitem rec (py "topic_id") = inr (JStr t)
    /\ getitem rec (py "question_id") = inr (JStr q)
    /\ getitem rec (py "followup_answer") = inr (JStr [])
    /\ getitem rec (py "final_answer") = inr (JStr (strip o)).
Proof.
  intros H Hs. destruct (update_stores _ _ _ _ _ _ _ _ _ _ H Hs) as (session & i & Hd & Hf & Hi).
  exists session, i, (make_record t q o (Some []) c r).
  repeat split; try assumption; reflexivity.
Qed.

Lemma empty_followup_is_no_followup_witness :
  exists session i rec,
    data (snd (update_session_append_answer (py "s.json") (py "T1") (py "Q1") (py " A ")
                 (Some []) JNull JNull ∅)) = Some session
    /\ answers_of session !! i = Some rec
    /\ getitem rec (py "followup_answer") = inr (JStr [])
    /\ getitem rec (py "final_answer") = inr (JStr (strip (py " A "))).
Proof.
  assert (Hs : status (snd (update_session_append_answer (py "s.json") (py "T1") (py "Q1")
                               (py " A ") (Some []) JNull JNull ∅)) = py "success")
    by (vm_compute; reflexivity).
  destruct (empty_followup_is_no_followup (py "s.json") (py "T1") (py "Q1") (py " A ")
              JNull JNull ∅ _ _ (surjective_pairing _) Hs)
    as (session & i & rec & Hd & _ & Hi & _ & _ & Hf & Hfin).
  exists session, i, rec. auto.
Defined.

(** C4: a string that is not valid JSON is refused by both tools that save,
    with an error result, and the file system is left as it was: the file at
    the path is unchanged, or still absent. *)
Theorem malformed_json_is_not_saved (s path : str) (fs : filesystem) :
  json_loads s = None ->
  save_json_file s path fs
  = (fs, mkResult (py "error") None None (Some (StrOf JSONDecodeError)))
  /\ save_questions_to_file s path fs
     = (fs, mkResult (py "error") None None (Some (StrOf JSONDecodeError))).
Proof.
  intros H. unfold save_json_file, save_questions_to_file. rewrite H. split; reflexivity.
Qed.

Lemma malformed_json_is_not_saved_witness :
  json_loads (py "{'role': 1}") = None
  /\ save_json_file (py "{'role': 1}") (py "interview_plan.json") ∅
     = (∅, mkResult (py "error") None None (Some (StrOf JSONDecodeError)))
  /\ save_questions_to_file (py "{'role': 1}") (py "interview_plan.json") ∅
     = (∅, mkResult (py "error") None None (Some (StrOf JSONDecodeError))).
Proof.
  assert (H : json_loads (py "{'role': 1}") = None) by (vm_compute; reflexivity).
  split; [exact H|].
  exact (malformed_json_is_not_saved (py "{'role': 1}") (py "interview_plan.json") ∅ H).
Defined.

(** C5: loading a path at which there is no file returns the result with
    status ["error"], no data and the message [File not found: <path>], and
    leaves the file system as it was: no file is made at the path. *)
Theorem missing_file_is_an_error_result (path : str) (fs : filesystem) :
  fs !! path = None ->
  load_json_file path fs
  = (fs, mkResult (py "error") (Some JNull) None
           (Some (Literal (py "File not found: " ++ path))))
  /\ fst (load_json_file path fs) !! path = None.
Proof.
  intros H. unfold load_json_file. rewrite H. split; [reflexivity|exact H].
Qed.

Lemma missing_file_is_an_error_result_witness :
  load_json_file (py "interview_plan.json") ∅
  = (∅, mkResult (py "error") (Some JNull) None
          (Some (Literal (py "File not found: interview_plan.json"))))
  /\ fst (load_json_file (py "interview_plan.json") ∅) !! py "interview_plan.json" = None.
Proof.
  exact (missing_file_is_an_error_result (py "interview_plan.json") ∅
           (lookup_empty (py "interview_plan.json"))).
Defined.

(** C3, as amended: when a string parses as JSON and saving it returns
    success, the file at the path holds a JSON text of the parsed document;
    loading the path changes nothing and does not report a missing file, and
    a load that returns success returns the parsed document as its data. *)
Theorem save_then_load (s path : str) (fs fs' fs'' : filesystem) (v : json)
    (res res' : result) :
  json_loads s = Some v ->
  save_json_file s path fs = (fs', res) ->
  status res = py "success" ->
  load_json_file path fs' = (fs'', res') ->
  (exists text, fs' !! path = Some (Text text) /\ json_loads text = Some v)
  /\ fs'' = fs'
  /\ error_message res' <> Some (Literal (py "File not found: " ++ path))
  /\ (status res' = py "success" -> data res' = Some v).
Proof.
  intros Hv H Hs Hload.
  destruct (save_success _ _ _ _ _ H Hs) as (v' & Hv' & Hwf & _ & -> & _).
  rewrite Hv in Hv'. inversion Hv'; subst v'.
  pose proof (json_loads_dumps v Hwf) as Hback.
  unfold load_json_file in Hload. rewrite lookup_insert_eq in Hload. simpl in Hload.
  rewrite Hback in Hload. injection Hload as <- <-.
  split; [exists (json_dumps v); split; [apply lookup_insert_eq|exact Hback]|].
  split; [reflexivity|]. split; [discriminate|]. intros _. reflexivity.
Qed.

Lemma save_then_load_witness :
  data (snd (load_json_file (py "plan.json")
               (fst (save_json_file (py " [1, 2.5e3, true, null] ") (py "plan.json") ∅))))
  = Some (JArr [JInt 1; JFloat (py "2.5e3"); JBool true; JNull]).
Proof.
  assert (Hv : json_loads (py " [1, 2.5e3, true, null] ")
               = Some (JArr [JInt 1; JFloat (py "2.5e3"); JBool true; JNull]))
    by (vm_compute; reflexivity).
  assert (Hs : status (snd (save_json_file (py " [1, 2.5e3, true, null] ")
                              (py "plan.json") ∅)) = py "success")
    by (vm_compute; reflexivity).
  assert (Hl : status (snd (load_json_file (py "plan.json")
                              (fst (save_json_file (py " [1, 2.5e3, true, null] ")
                                      (py "plan.json") ∅)))) = py "success")
    by (vm_compute; reflexivity).
  exact (proj2 (proj2 (proj2
           (save_then_load (py " [1, 2.5e3, true, null] ") (py "plan.json") ∅ _ _ _ _ _
              Hv (surjective_pairing _) Hs (surjective_pairing _)))) Hl).
Defined.

(** C3 as stated fails: the text of a string with a lone surrogate escape
    parses as JSON, but the string cannot be encoded when it is written:
    saving returns an error and loading the path afterwards does not
    succeed. *)
Lemma lone_surrogate_is_not_saved :
  json_loads [34; 92; 117; 100; 56; 48; 48; 34] = Some (JStr [55296])
  /\ snd (save_json_file [34; 92; 117; 100; 56; 48; 48; 34] (py "plan.json") ∅)
     = mkResult (py "error") None None (Some (StrOf UnicodeEncodeError))
  /\ snd (load_json_file (py "plan.json")
            (fst (save_json_file [34; 92; 117; 100; 56; 48; 48; 34] (py "plan.json") ∅)))
     = mkResult (py "error") (Some JNull) None (Some (StrOf JSONDecodeError)).
Proof. repeat split; vm_compute; reflexivity. Qed.

(** C7: when there is no session file, the merge starts from the new session
    (current topic index 0, no follow-up asked, no answers) and puts the
    record in it: it returns that session with the one record, whenever it
    returns a session. *)
Theorem merge_without_session_file (path t q o : str) (fu : option str) (c r : json)
    (fs : filesystem) :
  fs !! path = None ->
  load_session path fs = inr new_session
  /\ getitem new_session (py "current_topic_index") = inr (JInt 0)
  /\ getitem new_session (py "asked_followup_for_topic") = inr (JObj [])
  /\ getitem new_session (py "answers") = inr (JArr [])
  /\ (forall session,
        data (snd (update_session_append_answer path t q o fu c r fs)) = Some session ->
        getitem session (py "current_topic_index") = inr (JInt 0)
        /\ getitem session (py "asked_followup_for_topic") = inr (JObj [])
        /\ getitem session (py "answers") = inr (JArr [make_record t q o fu c r])
        /\ fst (update_session_append_answer path t q o fu c r fs) !! path
           = Some (Text (json_dumps session)))
  /\ (encodable (json_dumps (first_session (make_record t q o fu c r))) = true ->
      snd (update_session_append_answer path t q o fu c r fs)
      = mkResult (py "success") (Some (first_session (make_record t q o fu c r))) None None).
Proof.
  intros H. split; [unfold load_session; rewrite H; reflexivity|].
  repeat (split; [reflexivity|]).
  rewrite (update_new_session path t q o fu c r fs H). cbv zeta.
  destruct (encodable _); split.
  - intros session Hs. simpl in Hs. inversion Hs; subst.
    repeat split; try reflexivity. simpl. apply lookup_insert_eq.
  - reflexivity.
  - intros session Hs. discriminate.
  - discriminate.
Qed.

Lemma merge_without_session_file_witness :
  snd (update_session_append_answer (py "interview_session.json") (py "T1") (py "Q1")
         (py "A") None JNull JNull ∅)
  = mkResult (py "success")
      (Some (first_session (make_record (py "T1") (py "Q1") (py "A") None JNull JNull)))
      None None.
Proof.
  destruct (merge_without_session_file (py "interview_session.json") (py "T1") (py "Q1")
              (py "A") None JNull JNull ∅ (lookup_empty _)) as (_ & _ & _ & _ & _ & H).
  apply H. vm_compute. reflexivity.
Defined.

(** C6: from no session file, merging T1/Q1 with the answer A, no follow-up
    and completeness complete returns a session with one record, whose final
    answer is A; merging T1/Q1 again with the answer B returns a session with
    one record still, now with B: the record is replaced, not appended. *)
Theorem merge_twice_replaces (path : str) (fs : filesystem) :
  fs !! path = None ->
  let first := update_session_append_answer path (py "T1") (py "Q1") (py "A") None
                 complete JNull fs in
  let second := update_session_append_answer path (py "T1") (py "Q1") (py "B") None
                  complete JNull (fst first) in
  snd first = mkResult (py "success") (Some (first_session (scenario_record (py "A")))) None None
  /\ answers_of (first_session (scenario_record (py "A"))) = [scenario_record (py "A")]
  /\ getitem (scenario_record (py "A")) (py "final_answer") = inr (JStr (py "A"))
  /\ snd second
     = mkResult (py "success") (Some (first_session (scenario_record (py "B")))) None None
  /\ answers_of (first_session (scenario_record (py "B"))) = [scenario_record (py "B")]
  /\ getitem (scenario_record (py "B")) (py "original_answer") = inr (JStr (py "B"))
  /\ getitem (scenario_record (py "B")) (py "final_answer") = inr (JStr (py "B"))
  /\ stored_session (fst second) path = Some (first_session (scenario_record (py "B"))).
Proof.
  intros H first second.
  assert (E1 : first = (<[path := Text (json_dumps (first_session (scenario_record (py "A"))))]> fs,
                        mkResult (py "success")
                          (Some (first_session (scenario_record (py "A")))) None None)).
  { unfold first. rewrite (update_new_session _ _ _ _ _ _ _ _ H). reflexivity. }
  assert (E2 : second
               = (<[path := Text (json_dumps (first_session (scenario_record (py "B"))))]>
                    (fst first),
                  mkResult (py "success")
                    (Some (first_session (scenario_record (py "B")))) None None)).
  { unfold second. rewrite E1. cbn [fst].
    unfold update_session_append_answer, load_session. rewrite lookup_insert_eq.
    unfold json_load. rewrite json_loads_dumps by (vm_compute; reflexivity).
    reflexivity. }
  rewrite E2. cbn [fst snd]. rewrite E1. cbn [fst snd].
  repeat (split; [reflexivity|]).
  unfold stored_session. rewrite lookup_insert_eq.
  apply json_loads_dumps. vm_compute. reflexivity.
Qed.

Lemma merge_twice_replaces_witness :
  snd (update_session_append_answer (py "interview_session.json") (py "T1") (py "Q1")
         (py "B") None complete JNull
         (fst (update_session_append_answer (py "interview_session.json") (py "T1")
                 (py "Q1") (py "A") None complete JNull ∅)))
  = mkResult (py "success") (Some (first_session (scenario_record (py "B")))) None None.
Proof.
  destruct (merge_twice_replaces (py "interview_session.json") ∅ (lookup_empty _))
    as (_ & _ & _ & H & _).
  exact H.
Defined.

(** C10, as amended: a merge that succeeds on an existing session file that
    parses keeps the top-level keys of the session, in their order, and the
    value of every key other than ["answers"], in the session it returns,
    which is the session the file then holds. *)
Theorem merge_keeps_other_fields (path t q o : str) (fu : option str) (c r : json)
    (fs fs' : filesystem) (res : result) (text : str) (session : json) :
  fs !! path = Some (Text text) ->
  json_loads text = Some session ->
  wf c = true -> wf r = true ->
  update_session_append_answer path t q o fu c r fs = (fs', res) ->
  status res = py "success" ->
  exists d d',
    session = JObj d
    /\ data res = Some (JObj d')
    /\ stored_session fs' path = Some (JObj d')
    /\ keys d' = keys d
    /\ (forall k, k <> py "answers" ->
          getitem (JObj d') k = getitem (JObj d) k)
    /\ getitem (JObj d') (py "current_topic_index")
       = getitem (JObj d) (py "current_topic_index")
    /\ getitem (JObj d') (py "asked_followup_for_topic")
       = getitem (JObj d) (py "asked_followup_for_topic").
Proof.
  intros Hf Ht Hc Hr H Hs.
  destruct (update_success_stored _ _ _ _ _ _ _ _ _ _ Hc Hr H Hs)
    as (s0 & d & recs & Hl & -> & Ha & -> & Hst).
  unfold load_session, json_load in Hl. rewrite Hf, Ht in Hl. inversion Hl; subst.
  assert (Hk : forall k, k <> py "answers" ->
                 getitem (JObj (dict_set (py "answers")
                   (JArr (put recs (first_match t q recs) (make_record t q o fu c r))) d)) k
                 = getitem (JObj d) k).
  { intros k Hk. unfold getitem. rewrite dict_get_set_neq by exact Hk. reflexivity. }
  eexists d, _. split; [reflexivity|]. split; [reflexivity|]. split; [exact Hst|].
  split; [apply keys_dict_set_In; exact (dict_get_In _ _ _ Ha)|].
  split; [exact Hk|]. split; apply Hk; discriminate.
Qed.

Lemma merge_keeps_other_fields_witness :
  exists d',
    data (snd (update_session_append_answer (py "s.json") (py "T2") (py "Q1") (py "A")
                 None JNull JNull {[ py "s.json" := Text (json_dumps session0) ]}))
    = Some (JObj d')
    /\ getitem (JObj d') (py "current_topic_index") = inr (JInt 2)
    /\ getitem (JObj d') (py "candidate") = inr (JStr (py "Ada")).
Proof.
  assert (Hs : status (snd (update_session_append_answer (py "s.json") (py "T2") (py "Q1")
                 (py "A") None JNull JNull {[ py "s.json" := Text (json_dumps session0) ]}))
               = py "success") by (vm_compute; reflexivity).
  destruct (merge_keeps_other_fields (py "s.json") (py "T2") (py "Q1") (py "A") None
              JNull JNull {[ py "s.json" := Text (json_dumps session0) ]} _ _
              (json_dumps session0) session0
              (lookup_singleton_eq _ _) ltac:(vm_compute; reflexivity) eq_refl eq_refl
              (surjective_pairing _) Hs)
    as (d & d' & Hd & Hdata & _ & _ & Hk & _).
  exists d'. split; [exact Hdata|]. inversion Hd; subst.
  split; (rewrite Hk; [reflexivity|discriminate]).
Defined.

(** C10 as stated fails: on a well-formed session file with a field of its
    own, a call whose answer has a lone surrogate returns an error, and the
    session file is left truncated: it no longer holds the fields. *)
Lemma lone_surrogate_answer_loses_the_fields :
  stored_session {[ py "s.json" := Text (json_dumps session0) ]} (py "s.json")
  = Some session0
  /\ getitem session0 (py "candidate") = inr (JStr (py "Ada"))
  /\ snd (update_session_append_answer (py "s.json") (py "T1") (py "Q1") [55296] None
            JNull JNull {[ py "s.json" := Text (json_dumps session0) ]})
     = mkResult (py "error") None None (Some (StrOf UnicodeEncodeError))
  /\ fst (update_session_append_answer (py "s.json") (py "T1") (py "Q1") [55296] None
            JNull JNull {[ py "s.json" := Text (json_dumps session0) ]}) !! py "s.json"
     = Some Torn
  /\ stored_session
       (fst (update_session_append_answer (py "s.json") (py "T1") (py "Q1") [55296] None
               JNull JNull {[ py "s.json" := Text (json_dumps session0) ]}))
       (py "s.json")
     = None.
Proof. repeat split; vm_compute; reflexivity. Qed.

(** C2: in every sequence of merges on a session file that is absent or holds
    a session without answers, every session that is returned, and the
    session the file holds afterwards, has at most one record for each (topic
    id, question id) pair; and each merge that succeeds puts its record in
    the place of the first record with its pair, the other records and their
    positions unchanged, or after the last record when no record has its
    pair. *)
Theorem one_record_per_pair (path : str) (calls : list merge_call) (fs : filesystem) :
  starts_empty fs path ->
  Forall wf_call calls ->
  Forall (fun res => forall session, data res = Some session -> distinct_pairs session)
    (snd (merges path calls fs))
  /\ (forall session,
        stored_session (fst (merges path calls fs)) path = Some session ->
        distinct_pairs session)
  /\ (forall c fs0 fs1 res session,
        wf_call c ->
        load_session path fs0 = inr session ->
        merge path c fs0 = (fs1, res) ->
        status res = py "success" ->
        exists session',
          data res = Some session'
          /\ stored_session fs1 path = Some session'
          /\ answers_of session'
             = put (answers_of session)
                 (first_match (call_topic c) (call_question c) (answers_of session))
                 (record_of c)).
Proof.
  intros Hstart Hcalls.
  assert (Hinv : file_distinct fs path).
  { intros session Hs. destruct Hstart as [Hn|(s & Hs' & He)].
    - unfold stored_session in Hs. rewrite Hn in Hs. discriminate.
    - rewrite Hs in Hs'. inversion Hs'; subst. unfold distinct_pairs. rewrite He. constructor. }
  destruct (merges_distinct path calls fs Hcalls Hinv) as [Hfile Hres].
  split; [exact Hres|]. split; [exact Hfile|].
  intros c fs0 fs1 res session [Hc Hr] Hl H Hs. unfold merge in H.
  destruct (update_success_stored _ _ _ _ _ _ _ _ _ _ Hc Hr H Hs)
    as (s0 & d & recs & Hl' & -> & Ha & -> & Hst).
  rewrite Hl in Hl'. inversion Hl'; subst.
  eexists. split; [reflexivity|]. split; [exact Hst|].
  rewrite answers_of_merged. unfold answers_of, getitem. rewrite Ha. reflexivity.
Qed.

Lemma one_record_per_pair_witness :
  Forall (fun res => forall session, data res = Some session -> distinct_pairs session)
    (snd (merges (py "s.json") three_calls ∅)).
Proof.
  apply (one_record_per_pair (py "s.json") three_calls ∅).
  - left. apply lookup_empty.
  - repeat constructor.
Defined.

(** C8: a request whose [app_name] is not a registered agent is answered with
    the client error 400 by both handlers, with no call to a session service
    or a runner and the backend untouched; for a registered name the handlers
    refuse nothing: whatever the user, the session and the message are, they
    first create the session and never answer with a client error. *)
Theorem unknown_app_name_is_rejected (B : backend) (body : RunBody) (w : World B) :
  (~ In (app_name body) agents ->
     run B body w = (w, [], HTTPException 400 (py "Unknown app_name " ++ app_name body))
     /\ run_sse B body w
        = (w, [], HTTPException 400 (py "Unknown app_name " ++ app_name body)))
  /\ (In (app_name body) agents ->
        (exists calls,
            snd (fst (run B body w))
            = CreateSession (app_name body) (userId body) (sessionId body) :: calls)
        /\ (exists calls,
              snd (fst (run_sse B body w))
              = CreateSession (app_name body) (userId body) (sessionId body) :: calls)
        /\ ~ is_client_error (snd (run B body w))
        /\ ~ is_client_error (snd (run_sse B body w))).
Proof.
  split.
  - intros H. assert (E : registered (app_name body) = false).
    { destruct (registered (app_name body)) eqn:E; [|reflexivity].
      apply registered_In in E. contradiction. }
    unfold run, run_sse. rewrite E. split; reflexivity.
  - intros H. apply registered_In in H. unfold run, run_sse. rewrite H. cbn [negb].
    destruct (ensure_session B _ _ _ w) as [w1 [|]].
    + destruct (run_async B _ _ _ _ w1) as [[w2 events] [|]]; cbn [fst snd];
        repeat split; eauto; intros (sc & dt & E); discriminate.
    + cbn [fst snd]. repeat split; eauto; intros (sc & dt & E); discriminate.
Qed.

Lemma unknown_app_name_is_rejected_witness :
  run quiet unknown_body tt
  = (tt, [], HTTPException 400 (py "Unknown app_name rating_agent"))
  /\ run_sse quiet unknown_body tt
     = (tt, [], HTTPException 400 (py "Unknown app_name rating_agent")).
Proof.
  apply (proj1 (unknown_app_name_is_rejected quiet unknown_body tt)).
  vm_compute. intuition discriminate.
Defined.

(** * Further properties of the code *)

(** ** The final answer of a record *)

(** X1: the final answer of a record never starts and never ends with a
    whitespace character, so that stripping it again changes nothing. *)
Theorem final_answer_is_stripped (o : str) (fu : option str) :
  (forall c rest, final_answer o fu = c :: rest -> is_space c = false)
  /\ (forall front c, final_answer o fu = front ++ [c] -> is_space c = false)
  /\ strip (final_answer o fu) = final_answer o fu.
Proof.
  unfold final_answer. split; [|split].
  - intros c rest. apply strip_head.
  - intros front c. apply strip_last.
  - apply strip_strip.
Qed.

(** X2: a follow-up of whitespace only counts as a follow-up (it is not
    empty), yet the final answer is the one of the record without a
    follow-up: the separator and the follow-up are stripped away. *)
Theorem blank_followup_adds_nothing (o f : str) :
  blank f = true -> final_answer o (Some f) = final_answer o None.
Proof.
  intros H. unfold final_answer. destruct f as [|c f]; [reflexivity|].
  cbn [falsy default]. apply strip_app_blank.
  change (blank ([10; 10] ++ c :: f) = true). rewrite blank_app, H. reflexivity.
Qed.

Lemma blank_followup_adds_nothing_witness :
  final_answer (py "A") (Some (py "  ")) = final_answer (py "A") None.
Proof. apply (blank_followup_adds_nothing (py "A") (py "  ")). reflexivity. Defined.

(** X3: when the original answer is whitespace only (or empty), the final
    answer is the follow-up, stripped. *)
Theorem blank_original_leaves_followup (o f : str) :
  blank o = true -> final_answer o (Some f) = strip f.
Proof.
  intros Ho. unfold final_answer. destruct f as [|c f]; cbn [falsy default].
  - apply strip_nil_iff. exact Ho.
  - unfold strip. rewrite (lstrip_blank_app o _ Ho). reflexivity.
Qed.

Lemma blank_original_leaves_followup_witness :
  final_answer (py "  ") (Some (py " B ")) = strip (py " B ").
Proof. apply (blank_original_leaves_followup (py "  ") (py " B ")). reflexivity. Defined.

(** X4: when neither the original answer nor the follow-up is whitespace
    only, the final answer is the original answer without its leading
    whitespace, two newlines, and the follow-up without its trailing
    whitespace: nothing between the two ends is removed. *)
Theorem final_answer_joins (o f : str) :
  blank o = false -> blank f = false ->
  final_answer o (Some f) = lstrip o ++ separator ++ rstrip f.
Proof.
  intros Ho Hf. unfold final_answer. destruct f as [|c f]; [discriminate|].
  cbn [falsy default]. unfold strip. rewrite lstrip_app by exact Ho.
  rewrite !app_assoc. rewrite rstrip_app by exact Hf. reflexivity.
Qed.

Lemma final_answer_joins_witness :
  final_answer (py " A ") (Some (py " B "))
  = lstrip (py " A ") ++ separator ++ rstrip (py " B ").
Proof. apply (final_answer_joins (py " A ") (py " B ")); reflexivity. Defined.

(** X5: the final answer is empty exactly when the original answer is
    whitespace only (or empty) and so is the follow-up, if there is one. *)
Theorem final_answer_empty (o : str) (fu : option str) :
  final_answer o fu = [] <-> blank o = true /\ blank (default [] fu) = true.
Proof.
  unfold final_answer. rewrite strip_nil_iff. destruct fu as [[|c f]|]; cbn [falsy default].
  - split; [intros H; split; [exact H|reflexivity]|intros [H _]; exact H].
  - rewrite !blank_app. rewrite andb_true_iff. split.
    + intros [H1 H2]. split; [exact H1|]. apply andb_prop in H2 as [_ H2]. exact H2.
    + intros [H1 H2]. split; [exact H1|]. rewrite H2. reflexivity.
  - split; [intros H; split; [exact H|reflexivity]|intros [H _]; exact H].
Qed.

(** ** When a merge succeeds *)

(** X6: a merge returns success only when the session it starts from (the
    document of the session file, or the new session when there is no file)
    is a dictionary with a list under ["answers"], every record of the list
    up to the first one with the pair is a dictionary, and the rendered
    session can be encoded as UTF-8; the session it returns is then the one
    it started from with the record put in.  Records after the first one
    with the pair are not looked at. *)
Theorem merge_succeeds_only_if (path t q o : str) (fu : option str) (c r : json)
    (fs : filesystem) :
  status (snd (update_session_append_answer path t q o fu c r fs)) = py "success" ->
  exists d recs,
    load_session path fs = inr (JObj d)
    /\ dict_get (py "answers") d = Some (JArr recs)
    /\ forallb is_dict (examined t q recs) = true
    /\ encodable (json_dumps (JObj (dict_set (py "answers")
         (JArr (put recs (first_match t q recs) (make_record t q o fu c r))) d))) = true
    /\ data (snd (update_session_append_answer path t q o fu c r fs))
       = Some (JObj (dict_set (py "answers")
           (JArr (put recs (first_match t q recs) (make_record t q o fu c r))) d)).
Proof.
  intros Hs.
  destruct (update_success _ _ _ _ _ _ _ _ _ _ (surjective_pairing _) Hs)
    as (s0 & s1 & Hl & Hm & Hres & He & _).
  destruct (merge_record_examined _ _ _ _ _ Hm) as (d & recs & -> & Ha & Hx & ->).
  exists d, recs. rewrite Hres. auto.
Qed.

Lemma merge_succeeds_only_if_witness :
  exists d recs,
    load_session (py "s.json") {[ py "s.json" := Text (json_dumps later_malformed) ]}
    = inr (JObj d)
    /\ dict_get (py "answers") d = Some (JArr recs)
    /\ forallb is_dict (examined (py "T1") (py "Q1") recs) = true
    /\ forallb is_dict recs = false.
Proof.
  assert (Hs : status (snd (update_session_append_answer (py "s.json") (py "T1") (py "Q1")
                              (py "B") None complete JNull
                              {[ py "s.json" := Text (json_dumps later_malformed) ]}))
               = py "success") by (vm_compute; reflexivity).
  destruct (merge_succeeds_only_if (py "s.json") (py "T1") (py "Q1") (py "B") None complete
              JNull {[ py "s.json" := Text (json_dumps later_malformed) ]} Hs)
    as (d & recs & Hl & Ha & Hx & _).
  exists d, recs. split; [exact Hl|]. split; [exact Ha|]. split; [exact Hx|].
  assert (Hl' : load_session (py "s.json")
                  {[ py "s.json" := Text (json_dumps later_malformed) ]}
                = inr later_malformed) by (vm_compute; reflexivity).
  rewrite Hl' in Hl. injection Hl as <-. vm_compute in Ha. injection Ha as <-.
  vm_compute. reflexivity.
Defined.

(** X7: a session file that does not hold a session the record can be put in
    (it does not parse, its document is not a dictionary, has no list under
    ["answers"], or has a record that is not a dictionary before the first
    one with the pair) is neither repaired nor replaced: the merge returns an
    error result and leaves the file system as it was. *)
Theorem malformed_session_is_left_alone (path t q o : str) (fu : option str) (c r : json)
    (fs : filesystem) :
  ~ (exists d recs,
        load_session path fs = inr (JObj d)
        /\ dict_get (py "answers") d = Some (JArr recs)
        /\ forallb is_dict (examined t q recs) = true) ->
  is_Some (fs !! path)
  /\ exists e, update_session_append_answer path t q o fu c r fs
              = (fs, mkResult (py "error") None None (Some (StrOf e))).
Proof.
  intros Hn. split.
  - destruct (fs !! path) eqn:E; [eauto|]. exfalso. apply Hn.
    exists [ (py "current_topic_index", JInt 0);
             (py "asked_followup_for_topic", JObj []);
             (py "answers", JArr []) ], [].
    unfold load_session. rewrite E. repeat split; reflexivity.
  - unfold update_session_append_answer.
    destruct (load_session path fs) as [e|session] eqn:El; [exists e; reflexivity|].
    destruct (merge_record _ _ _ _) as [e|session'] eqn:Em; [exists e; reflexivity|].
    exfalso. apply Hn.
    destruct (merge_record_examined _ _ _ _ _ Em) as (d & recs & -> & Ha & Hx & _).
    exists d, recs. auto.
Qed.

Lemma malformed_session_is_left_alone_witness :
  exists e,
    update_session_append_answer (py "s.json") (py "T1") (py "Q1") (py "A") None JNull JNull
      {[ py "s.json" := Text (py "[]") ]}
    = ({[ py "s.json" := Text (py "[]") ]},
       mkResult (py "error") None None (Some (StrOf e))).
Proof.
  apply (malformed_session_is_left_alone (py "s.json") (py "T1") (py "Q1") (py "A") None
           JNull JNull {[ py "s.json" := Text (py "[]") ]}).
  intros (d & recs & H & _). vm_compute in H. discriminate.
Defined.

(** ** Saving and loading *)

(** X8: loading changes nothing in the file system, and the three tools that
    write change no path other than the one they are given. *)
Theorem tools_touch_only_their_path (path p s t q o : str) (fu : option str) (c r : json)
    (fs : filesystem) :
  p <> path ->
  fst (load_json_file path fs) = fs
  /\ fst (save_json_file s path fs) !! p = fs !! p
  /\ fst (save_questions_to_file s path fs) !! p = fs !! p
  /\ fst (update_session_append_answer path t q o fu c r fs) !! p = fs !! p.
Proof.
  intros Hp. repeat split.
  - unfold load_json_file. destruct (fs !! path) as [x|]; [destruct (json_load x)|]; reflexivity.
  - unfold save_json_file. destruct (json_loads s) as [v|]; [|reflexivity].
    pose proof (json_dump_to_other path p v fs Hp) as H.
    destruct (json_dump_to path v fs) as [fs1 [e|]]; exact H.
  - unfold save_questions_to_file. destruct (json_loads s) as [v|]; [|reflexivity].
    pose proof (json_dump_to_other path p v fs Hp) as H.
    destruct (json_dump_to path v fs) as [fs1 [e|]]; exact H.
  - unfold update_session_append_answer.
    destruct (load_session path fs) as [e|session]; [reflexivity|].
    destruct (merge_record _ _ _ _) as [e|session']; [reflexivity|].
    pose proof (json_dump_to_other path p session' fs Hp) as H.
    destruct (json_dump_to path session' fs) as [fs1 [e|]]; exact H.
Qed.

Lemma tools_touch_only_their_path_witness :
  fst (update_session_append_answer (py "interview_session.json") (py "T1") (py "Q1")
         (py "A") None JNull JNull {[ py "interview_plan.json" := Text (py "{}") ]})
    !! py "interview_plan.json"
  = Some (Text (py "{}")).
Proof.
  assert (Hp : py "interview_plan.json" <> py "interview_session.json") by discriminate.
  destruct (tools_touch_only_their_path (py "interview_session.json")
              (py "interview_plan.json") [] (py "T1") (py "Q1") (py "A") None JNull JNull
              {[ py "interview_plan.json" := Text (py "{}") ]} Hp) as (_ & _ & _ & H).
  exact (eq_trans H (lookup_singleton_eq _ _)).
Defined.

(** X9: when saving to a path that can itself be encoded returns the error
    of an encoding (the document cannot be written as UTF-8), the string did
    parse, and the file at the path is lost, whatever it held before: it was
    opened for writing, what is left of it does not parse, and loading the
    path returns an error.  The planner's tool does the same. *)
Theorem failed_save_loses_the_file (s path : str) (fs fs' : filesystem) (res : result) :
  encodable path = true ->
  save_json_file s path fs = (fs', res) ->
  error_message res = Some (StrOf UnicodeEncodeError) ->
  (exists v, json_loads s = Some v /\ encodable (json_dumps v) = false)
  /\ save_questions_to_file s path fs = (fs', res)
  /\ fs' !! path = Some Torn
  /\ load_json_file path fs'
     = (fs', mkResult (py "error") (Some JNull) None (Some (StrOf JSONDecodeError))).
Proof.
  intros _ H He. pose proof H as H0. unfold save_json_file in H.
  destruct (json_loads s) as [v|] eqn:Hv; [|injection H as <- <-; discriminate].
  destruct (json_dump_to path v fs) as [fs1 [e|]] eqn:Ed; injection H as <- <-;
    [|discriminate].
  destruct (json_dump_to_spec _ _ _ _ _ Ed) as [(Hn & _)|(_ & Hne & ->)]; [discriminate|].
  split; [exists v; auto|]. split; [rewrite save_questions_is_save; exact H0|].
  split; [apply lookup_insert_eq|].
  unfold load_json_file. rewrite lookup_insert_eq. reflexivity.
Qed.

Lemma failed_save_loses_the_file_witness :
  load_json_file (py "plan.json")
    (fst (save_json_file [34; 92; 117; 100; 56; 48; 48; 34] (py "plan.json")
            {[ py "plan.json" := Text (py "{}") ]}))
  = (fst (save_json_file [34; 92; 117; 100; 56; 48; 48; 34] (py "plan.json")
            {[ py "plan.json" := Text (py "{}") ]}),
     mkResult (py "error") (Some JNull) None (Some (StrOf JSONDecodeError))).
Proof.
  refine (proj2 (proj2 (proj2
    (failed_save_loses_the_file [34; 92; 117; 100; 56; 48; 48; 34] (py "plan.json")
       {[ py "plan.json" := Text (py "{}") ]} _ _ eq_refl (surjective_pairing _) _)))).
  vm_compute. reflexivity.
Defined.

(** X10: saving is idempotent: after a save that returns success, saving the
    text the file now holds, with either of the two tools that save, returns
    the same result and leaves the file system as it is. *)
Theorem save_again_changes_nothing (s path : str) (fs fs' : filesystem) (res : result) :
  save_json_file s path fs = (fs', res) ->
  status res = py "success" ->
  exists text,
    fs' !! path = Some (Text text)
    /\ save_json_file text path fs' = (fs', res)
    /\ save_questions_to_file text path fs' = (fs', res).
Proof.
  intros H Hs. destruct (save_success _ _ _ _ _ H Hs) as (v & Hv & Hwf & He & -> & ->).
  exists (json_dumps v). split; [apply lookup_insert_eq|].
  assert (E : save_json_file (json_dumps v) path (<[path := Text (json_dumps v)]> fs)
              = (<[path := Text (json_dumps v)]> fs,
                 mkResult (py "success") None (Some (py "Saved to " ++ path)) None)).
  { unfold save_json_file. rewrite (json_loads_dumps v Hwf). unfold json_dump_to.
    rewrite He, insert_insert_eq. reflexivity. }
  split; [exact E|]. rewrite save_questions_is_save. exact E.
Qed.

Lemma save_again_changes_nothing_witness :
  exists text,
    fst (save_json_file (py "[1,  2]") (py "plan.json") ∅) !! py "plan.json" = Some (Text text)
    /\ fst (save_json_file text (py "plan.json")
              (fst (save_json_file (py "[1,  2]") (py "plan.json") ∅)))
       = fst (save_json_file (py "[1,  2]") (py "plan.json") ∅).
Proof.
  destruct (save_again_changes_nothing (py "[1,  2]") (py "plan.json") ∅ _ _
              (surjective_pairing _) ltac:(vm_compute; reflexivity)) as (text & Ht & E & _).
  exists text. split; [exact Ht|]. rewrite E. reflexivity.
Defined.

(** X11: a save of a string that parses overwrites what an earlier save left
    at the path, a torn file included: it returns the same result and leaves
    the same file system as without the earlier save. *)
Theorem later_save_overwrites (s1 s2 path : str) (v : json) (fs : filesystem) :
  json_loads s2 = Some v ->
  save_json_file s2 path (fst (save_json_file s1 path fs)) = save_json_file s2 path fs.
Proof.
  intros Hv. unfold save_json_file. rewrite Hv.
  destruct (json_loads s1) as [v1|]; [|reflexivity].
  unfold json_dump_to.
  destruct (encodable (json_dumps v1)); cbn [fst];
    destruct (encodable (json_dumps v)); rewrite insert_insert_eq; reflexivity.
Qed.

Lemma later_save_overwrites_witness :
  save_json_file (py "[1]") (py "plan.json")
    (fst (save_json_file [34; 92; 117; 100; 56; 48; 48; 34] (py "plan.json") ∅))
  = save_json_file (py "[1]") (py "plan.json") ∅.
Proof.
  apply (later_save_overwrites [34; 92; 117; 100; 56; 48; 48; 34] (py "[1]") (py "plan.json")
           (JArr [JInt 1])).
  vm_compute. reflexivity.
Defined.

(** X12: after the planner's [save_questions_to_file] has saved a plan with
    success, the file at the path holds a JSON text of the document the
    planner's string parses to; the interviewer's [load_json_file] on the
    path changes nothing and does not report a missing file, and when it
    returns success its data is that document. *)
Theorem planner_plan_is_loaded (s path : str) (fs fs' fs'' : filesystem)
    (res res' : result) :
  save_questions_to_file s path fs = (fs', res) ->
  status res = py "success" ->
  load_json_file path fs' = (fs'', res') ->
  exists plan,
    json_loads s = Some plan
    /\ (exists text, fs' !! path = Some (Text text) /\ json_loads text = Some plan)
    /\ fs'' = fs'
    /\ error_message res' <> Some (Literal (py "File not found: " ++ path))
    /\ (status res' = py "success" -> data res' = Some plan).
Proof.
  rewrite save_questions_is_save. intros H Hs Hload.
  destruct (save_success _ _ _ _ _ H Hs) as (v & Hv & Hwf & _ & -> & _).
  pose proof (json_loads_dumps v Hwf) as Hback.
  unfold load_json_file in Hload. rewrite lookup_insert_eq in Hload. simpl in Hload.
  rewrite Hback in Hload. injection Hload as <- <-.
  exists v. split; [exact Hv|].
  split; [exists (json_dumps v); split; [apply lookup_insert_eq|exact Hback]|].
  split; [reflexivity|]. split; [discriminate|]. intros _. reflexivity.
Qed.

Lemma planner_plan_is_loaded_witness :
  exists plan,
    json_loads (py "{ }") = Some plan
    /\ data (snd (load_json_file (py "interview_plan.json")
                    (fst (save_questions_to_file (py "{ }")
                            (py "interview_plan.json") ∅)))) = Some plan.
Proof.
  assert (Hs : status (snd (save_questions_to_file (py "{ }") (py "interview_plan.json") ∅))
               = py "success") by (vm_compute; reflexivity).
  assert (Hl : status (snd (load_json_file (py "interview_plan.json")
                              (fst (save_questions_to_file (py "{ }")
                                      (py "interview_plan.json") ∅)))) = py "success")
    by (vm_compute; reflexivity).
  destruct (planner_plan_is_loaded (py "{ }") (py "interview_plan.json") ∅ _ _ _ _
              (surjective_pairing _) Hs (surjective_pairing _))
    as (plan & Hp & _ & _ & _ & H).
  exists plan. split; [exact Hp|exact (H Hl)].
Defined.

(** ** The record of a pair *)

(** X13: after a merge that succeeds, the first record with the pair of the
    call in the session it returns is the record of the call. *)
Theorem merged_record_is_found (path t q o : str) (fu : option str) (c r : json)
    (fs fs' : filesystem) (res : result) :
  update_session_append_answer path t q o fu c r fs = (fs', res) ->
  status res = py "success" ->
  exists session,
    data res = Some session
    /\ record_for t q session = Some (make_record t q o fu c r).
Proof.
  intros H Hs.
  destruct (update_success _ _ _ _ _ _ _ _ _ _ H Hs) as (s0 & s1 & _ & Hm & -> & _ & _).
  destruct (merge_record_spec _ _ _ _ _ Hm) as (d & recs & -> & Ha & ->).
  eexists. split; [reflexivity|]. apply record_for_merged. apply has_pair_make_record.
Qed.

Lemma merged_record_is_found_witness :
  exists session,
    data (snd (update_session_append_answer (py "s.json") (py "T1") (py "Q1") (py "A")
                 None JNull JNull ∅)) = Some session
    /\ record_for (py "T1") (py "Q1") session
       = Some (make_record (py "T1") (py "Q1") (py "A") None JNull JNull).
Proof.
  apply (merged_record_is_found (py "s.json") (py "T1") (py "Q1") (py "A") None JNull JNull
           ∅ _ _ (surjective_pairing _)).
  vm_compute. reflexivity.
Defined.

(** X14: a merge changes the record of no other pair: in the session it
    returns, the first record with any other pair is the one of the session
    it started from; and the session has one record more when the session it
    started from had none with the pair of the call, and as many otherwise. *)
Theorem merge_keeps_other_records (path t q o : str) (fu : option str) (c r : json)
    (fs fs' : filesystem) (res : result) (session0 session : json) :
  update_session_append_answer path t q o fu c r fs = (fs', res) ->
  load_session path fs = inr session0 ->
  data res = Some session ->
  (forall t' q', (t', q') <> (t, q) ->
     record_for t' q' session = record_for t' q' session0)
  /\ length (answers_of session)
     = (length (answers_of session0)
        + match record_for t q session0 with Some _ => 0 | None => 1 end)%nat.
Proof.
  intros H Hl Hd.
  assert (Hs : status res = py "success").
  { destruct (decide (status res = py "success")) as [Hs|Hs]; [exact Hs|].
    destruct (update_not_success _ _ _ _ _ _ _ _ _ _ H Hs) as [Hn _]. congruence. }
  destruct (update_success _ _ _ _ _ _ _ _ _ _ H Hs) as (s0 & s1 & Hl' & Hm & -> & _ & _).
  rewrite Hl in Hl'. inversion Hl'; subst s0. simpl in Hd. inversion Hd; subst s1.
  destruct (merge_record_spec _ _ _ _ _ Hm) as (d & recs & -> & Ha & ->).
  split.
  - intros t' q' Hne. apply record_for_merged_other; [exact Hne| |exact Ha].
    apply has_pair_make_record.
  - rewrite answers_of_merged, length_put. unfold record_for, answers_of, getitem.
    rewrite Ha. destruct (first_match t q recs) as [i|] eqn:E; [|reflexivity].
    destruct (first_match_Some t q recs i E) as (x & -> & _). reflexivity.
Qed.

Lemma merge_keeps_other_records_witness :
  exists session,
    data (snd (update_session_append_answer (py "s.json") (py "T1") (py "Q1") (py "A")
                 None JNull JNull ∅)) = Some session
    /\ record_for (py "T2") (py "Q1") session = None
    /\ length (answers_of session) = 1%nat.
Proof.
  assert (Hl : load_session (py "s.json") ∅ = inr new_session) by (vm_compute; reflexivity).
  assert (Hd : data (snd (update_session_append_answer (py "s.json") (py "T1") (py "Q1")
                            (py "A") None JNull JNull ∅))
               = Some (first_session (make_record (py "T1") (py "Q1") (py "A") None
                                        JNull JNull)))
    by (vm_compute; reflexivity).
  destruct (merge_keeps_other_records (py "s.json") (py "T1") (py "Q1") (py "A") None
              JNull JNull ∅ _ _ new_session _ (surjective_pairing _) Hl Hd) as [H1 H2].
  eexists. split; [exact Hd|]. split.
  - rewrite H1; [vm_compute; reflexivity|discriminate].
  - rewrite H2. vm_compute. reflexivity.
Defined.

(** X15: a merge never makes a second record for a pair and never removes a
    record: in the session it returns, the pair of the call has one record
    when the session it started from had none and as many as before
    otherwise, and every other pair has as many records as before. *)
Theorem merge_counts (path t q o : str) (fu : option str) (c r : json)
    (fs fs' : filesystem) (res : result) (session0 session : json) :
  update_session_append_answer path t q o fu c r fs = (fs', res) ->
  load_session path fs = inr session0 ->
  data res = Some session ->
  count_pair t q session = Nat.max 1 (count_pair t q session0)
  /\ forall t' q', (t', q') <> (t, q) ->
       count_pair t' q' session = count_pair t' q' session0.
Proof.
  intros H Hl Hd.
  assert (Hs : status res = py "success").
  { destruct (decide (status res = py "success")) as [Hs|Hs]; [exact Hs|].
    destruct (update_not_success _ _ _ _ _ _ _ _ _ _ H Hs) as [Hn _]. congruence. }
  destruct (update_success _ _ _ _ _ _ _ _ _ _ H Hs) as (s0 & s1 & Hl' & Hm & -> & _ & _).
  rewrite Hl in Hl'. inversion Hl'; subst s0. simpl in Hd. inversion Hd; subst s1.
  destruct (merge_record_spec _ _ _ _ _ Hm) as (d & recs & -> & Ha & ->).
  unfold count_pair. rewrite answers_of_merged. unfold answers_of, getitem. rewrite Ha.
  split.
  - apply filter_put_same. apply has_pair_make_record.
  - intros t' q' Hne. apply filter_put_other; [exact Hne|apply has_pair_make_record].
Qed.

Lemma merge_counts_witness :
  count_pair (py "T1") (py "Q1") (first_session (scenario_record (py "A"))) = 1%nat.
Proof.
  assert (Hl : load_session (py "s.json") ∅ = inr new_session) by (vm_compute; reflexivity).
  assert (Hd : data (snd (update_session_append_answer (py "s.json") (py "T1") (py "Q1")
                            (py "A") None complete JNull ∅))
               = Some (first_session (scenario_record (py "A"))))
    by (vm_compute; reflexivity).
  destruct (merge_counts (py "s.json") (py "T1") (py "Q1") (py "A") None complete JNull
              ∅ _ _ new_session _ (surjective_pairing _) Hl Hd) as [H _].
  rewrite H. vm_compute. reflexivity.
Defined.



(** X17: the last merge wins: after a sequence of merges that all succeed,
    the record of a pair in the session the file holds is the record of the
    last call for the pair, or the record of the session the sequence started
    from when no call is for the pair; and the last call returns the session
    the file holds. *)
Theorem last_merge_wins (path : str) (calls : list merge_call) (fs : filesystem)
    (session0 final : json) :
  Forall wf_call calls ->
  load_session path fs = inr session0 ->
  Forall (fun res => status res = py "success") (snd (merges path calls fs)) ->
  stored_session (fst (merges path calls fs)) path = Some final ->
  (forall t q,
     record_for t q final
     = match last_call t q calls with
       | Some c => Some (record_of c)
       | None => record_for t q session0
       end)
  /\ (forall res, last (snd (merges path calls fs)) = Some res -> data res = Some final).
Proof.
  intros Hcalls. revert fs session0.
  induction Hcalls as [|c calls [Hc Hr] Hcalls IH]; intros fs session0 Hl Hok Hfinal.
  - simpl in *. destruct (load_session_stored _ _ _ Hl) as [[Hn _]|Hst].
    + unfold stored_session in Hfinal. rewrite Hn in Hfinal. discriminate.
    + rewrite Hst in Hfinal. inversion Hfinal; subst. split; [reflexivity|discriminate].
  - simpl in Hok, Hfinal |- *. destruct (merge path c fs) as [fs1 r1] eqn:E1.
    destruct (merges path calls fs1) as [fs2 rs] eqn:E2. simpl in Hok, Hfinal |- *.
    inversion Hok as [|? ? Hs1 Hrs]; subst.
    unfold merge in E1.
    destruct (update_success_stored _ _ _ _ _ _ _ _ _ _ Hc Hr E1 Hs1)
      as (s0 & d & recs & Hl0 & -> & Ha & -> & Hst).
    rewrite Hl in Hl0. inversion Hl0; subst session0.
    specialize (IH fs1 _ (stored_load_session _ _ _ Hst)). rewrite E2 in IH.
    destruct (IH Hrs Hfinal) as [IH1 IH2]. split.
    + intros t q. rewrite IH1. unfold last_call. simpl rev. rewrite find_snoc.
      destruct (List.find (same_pair t q) (rev calls)) as [c'|]; [reflexivity|].
      destruct (same_pair t q c) eqn:Esp.
      * apply same_pair_spec in Esp. inversion Esp; subst.
        apply record_for_merged. apply has_pair_make_record.
      * apply record_for_merged_other; [| apply has_pair_make_record | exact Ha].
        intros Heq. apply same_pair_spec in Heq. congruence.
    + intros res Hlast. destruct rs as [|r2 rs'].
      * simpl in Hlast. inversion Hlast; subst. simpl.
        destruct calls as [|c2 calls']; [|simpl in E2;
          destruct (merge path c2 fs1) as [f r2];
          destruct (merges path calls' f) as [f2 rs2]; discriminate].
        simpl in E2. inversion E2; subst. rewrite Hst in Hfinal. exact Hfinal.
      * apply IH2. exact Hlast.
Qed.

Lemma last_merge_wins_witness :
  exists final,
    stored_session (fst (merges (py "s.json") three_calls ∅)) (py "s.json") = Some final
    /\ record_for (py "T1") (py "Q1") final
       = Some (make_record (py "T1") (py "Q1") (py "B") (Some (py "more")) complete JNull).
Proof.
  destruct (stored_session (fst (merges (py "s.json") three_calls ∅)) (py "s.json"))
    as [final|] eqn:E; [|vm_compute in E; discriminate].
  exists final. split; [reflexivity|].
  assert (Hcalls : List.Forall wf_call three_calls) by (repeat constructor).
  assert (Hl : load_session (py "s.json") ∅ = inr new_session) by (vm_compute; reflexivity).
  assert (Hok : List.Forall (fun res => status res = py "success")
                  (snd (merges (py "s.json") three_calls ∅)))
    by (vm_compute; repeat constructor).
  destruct (last_merge_wins (py "s.json") three_calls ∅ new_session final Hcalls
              Hl Hok E) as [H _].
  rewrite (H (py "T1") (py "Q1")). vm_compute. reflexivity.
Defined.

(** X18: a session file that holds the new session is as good as no session
    file: after the new session is saved at a path where there was no file, a
    merge returns the same result and leaves the same file system as the
    merge without the save. *)
Theorem default_session_file_is_no_file (text path t q o : str) (fu : option str)
    (c r : json) (fs : filesystem) :
  fs !! path = None ->
  json_loads text = Some new_session ->
  update_session_append_answer path t q o fu c r (fst (save_json_file text path fs))
  = update_session_append_answer path t q o fu c r fs.
Proof.
  intros Hn Hv. rewrite (update_new_session path t q o fu c r fs Hn).
  unfold save_json_file. rewrite Hv. unfold json_dump_to at 1.
  replace (encodable (json_dumps new_session)) with true by (vm_compute; reflexivity).
  cbn [fst]. unfold update_session_append_answer, load_session.
  rewrite lookup_insert_eq. unfold json_load.
  rewrite (json_loads_dumps new_session eq_refl), merge_record_new_session.
  unfold json_dump_to. cbv zeta. destruct (encodable _); rewrite insert_insert_eq; reflexivity.
Qed.

Lemma default_session_file_is_no_file_witness :
  update_session_append_answer (py "s.json") (py "T1") (py "Q1") (py "A") None JNull JNull
    (fst (save_json_file (json_dumps new_session) (py "s.json") ∅))
  = update_session_append_answer (py "s.json") (py "T1") (py "Q1") (py "A") None JNull JNull ∅.
Proof.
  apply (default_session_file_is_no_file (json_dumps new_session) (py "s.json")).
  - apply lookup_empty.
  - vm_compute. reflexivity.
Defined.

(** X19: a merge that fails because the session cannot be encoded as UTF-8
    loses the session file with all its answers: what is left at the path
    does not parse, so that loading it returns an error and every later
    merge on the path returns an error and changes nothing. *)
Theorem unencodable_merge_loses_the_session (path t q o : str) (fu : option str)
    (c r : json) (fs fs' : filesystem) (res : result) :
  update_session_append_answer path t q o fu c r fs = (fs', res) ->
  error_message res = Some (StrOf UnicodeEncodeError) ->
  fs' !! path = Some Torn
  /\ load_json_file path fs'
     = (fs', mkResult (py "error") (Some JNull) None (Some (StrOf JSONDecodeError)))
  /\ forall t' q' o' fu' c' r',
       update_session_append_answer path t' q' o' fu' c' r' fs'
       = (fs', mkResult (py "error") None None (Some (StrOf JSONDecodeError))).
Proof.
  unfold update_session_append_answer at 1. intros H He.
  assert (Ht : fs' !! path = Some Torn).
  { destruct (load_session path fs) as [e|session] eqn:El.
    - injection H as <- <-. simpl in He. inversion He; subst e.
      unfold load_session, json_load in El.
      destruct (fs !! path) as [[x|]|]; [destruct (json_loads x)| |]; discriminate.
    - destruct (merge_record _ _ _ _) as [e|session'] eqn:Em.
      + injection H as <- <-. simpl in He. inversion He; subst e.
        exfalso. exact (merge_record_error _ _ _ _ _ Em eq_refl).
      + destruct (json_dump_to path session' fs) as [fs1 [e|]] eqn:Ed; injection H as <- <-.
        * destruct (json_dump_to_spec _ _ _ _ _ Ed) as [(Hn & _)|(_ & _ & ->)];
            [discriminate|]. apply lookup_insert_eq.
        * discriminate. }
  split; [exact Ht|]. split.
  - unfold load_json_file. rewrite Ht. reflexivity.
  - intros. apply update_torn. exact Ht.
Qed.

Lemma unencodable_merge_loses_the_session_witness :
  fst (update_session_append_answer (py "s.json") (py "T1") (py "Q1") [55296] None
         JNull JNull {[ py "s.json" := Text (json_dumps session0) ]}) !! py "s.json"
  = Some Torn.
Proof.
  refine (proj1 (unencodable_merge_loses_the_session (py "s.json") (py "T1") (py "Q1")
                   [55296] None JNull JNull {[ py "s.json" := Text (json_dumps session0) ]}
                   _ _ (surjective_pairing _) _)).
  vm_compute. reflexivity.
Defined.



(** ** The handlers of the server *)

(** X21: the two handlers go the same way: they make the same calls to the
    session service and the runner and leave them in the same state, and
    [run_sse] streams one chunk for each event that [run] returns.  They
    differ where the runner raises: [run] then returns no event at all, and
    [run_sse] has streamed the events before the exception. *)
Theorem run_sse_streams_what_run_returns (B : backend) (body : RunBody) (w : World B) :
  fst (run B body w) = fst (run_sse B body w)
  /\ match snd (run_sse B body w) with
     | StreamingResponse chunks complete =>
         exists events,
           chunks = List.map (sse_chunk B) events
           /\ snd (run B body w)
              = if complete then EventsBody (List.map (model_dump B) events) else Unhandled
     | response => snd (run B body w) = response
     end.
Proof.
  unfold run, run_sse. destruct (negb (registered (app_name body))); [split; reflexivity|].
  destruct (ensure_session B _ _ _ w) as [w1 [|]]; [|split; reflexivity].
  destruct (run_async B _ _ _ _ w1) as [[w2 events] [|]]; cbn [fst snd negb];
    (split; [reflexivity|exists events; split; reflexivity]).
Qed.

(** X22: for a registered agent, an exception of [create_session] that does
    not mention "exist" ends the request: it leaves the handler, and the
    runner is not called.  Any other outcome of [create_session], an
    exception that mentions "exist" included, is followed by one call of the
    runner with the user, the session and the message of the request. *)
Theorem session_error_stops_the_request (B : backend) (body : RunBody) (w : World B) :
  In (app_name body) agents ->
  let outcome := snd (create_session B (app_name body) (userId body) (sessionId body) w) in
  let message := RunAsync (app_name body) (userId body) (sessionId body)
                   (content_of (newMessage body)) in
  (outcome = Raised false ->
     run B body w
     = (fst (create_session B (app_name body) (userId body) (sessionId body) w),
        [CreateSession (app_name body) (userId body) (sessionId body)], Unhandled)
     /\ run_sse B body w = run B body w)
  /\ (outcome <> Raised false ->
        snd (fst (run B body w))
        = [CreateSession (app_name body) (userId body) (sessionId body); message]
        /\ snd (fst (run_sse B body w))
           = [CreateSession (app_name body) (userId body) (sessionId body); message]).
Proof.
  intros H outcome message. subst outcome message.
  apply registered_In in H. unfold run, run_sse, ensure_session. rewrite H. cbn [negb].
  destruct (create_session B _ _ _ w) as [w1 [|[|]]]; cbn [fst snd]; split;
    try (intros E; discriminate E); try (intros E; exfalso; apply E; reflexivity); intros _.
  - destruct (run_async B _ _ _ _ w1) as [[w2 events] [|]]; split; reflexivity.
  - destruct (run_async B _ _ _ _ w1) as [[w2 events] [|]]; split; reflexivity.
  - split; reflexivity.
Qed.

Lemma session_error_stops_the_request_witness :
  run refusing known_body tt
  = (tt, [CreateSession (py "main_interviewer_agent") (py "u1") (py "s1")], Unhandled).
Proof.
  assert (H : In (app_name known_body) agents) by (vm_compute; auto 10).
  exact (proj1 (proj1 (session_error_stops_the_request refusing known_body tt H) eq_refl)).
Defined.
